(** * buildsheet: placement sheets from an EAGLE board file

    A shallow embedding of [buildsheet.py] and the properties of its board
    extractor, pad renderer and sheet layout driver.

    Conventions of the embedding.
    - A Python [str] is a Rocq [string]; characters are the code points
      0..255, which is where the two regular expressions and [str.strip]
      are modelled (Python has more digits and blanks above 255).
    - [raise Exception(msg)] is [Raise msg]; the code raises nothing else on
      the paths modelled, apart from the library errors named where they
      occur.
    - Python floats are an abstract type [F] with the operations the code
      applies to them; nothing is assumed about rounding.  The code is run
      on two instances: exact decimals for what [float(str)] reads, and the
      real numbers for the arithmetic of the renderer.
    - A Python [dict] is an association list in insertion order with one
      entry per key.
    - An lxml element is a [node]: tag, attributes, child elements. *)

From Stdlib Require Import List String Ascii Bool Arith ZArith Lia Reals.
From Stdlib Require Import Permutation Sorted.
Import ListNotations.
Local Open Scope string_scope.

Set Implicit Arguments.
Local Set Warnings "-register-all".

(** ** Exceptions *)

Inductive result (A : Type) : Type :=
| Ok (a : A)
| Raise (msg : string).
Arguments Ok {A} a.
Arguments Raise {A} msg.

Definition bind {A B : Type} (m : result A) (f : A -> result B) : result B :=
  match m with
  | Ok a => f a
  | Raise msg => Raise msg
  end.

Notation "x <- m ;; k" := (bind m (fun x => k))
  (at level 61, m at next level, right associativity).

(** ** Characters and strings *)

Definition newline : ascii := ascii_of_nat 10.

Definition in_range (lo hi : nat) (c : ascii) : bool :=
  let n := nat_of_ascii c in Nat.leb lo n && Nat.leb n hi.

(** [\d] on code points below 256. *)
Definition is_digit (c : ascii) : bool := in_range 48 57 c.

(** [[A-Za-z]]. *)
Definition is_alpha (c : ascii) : bool := in_range 65 90 c || in_range 97 122 c.

(** [\s] on code points below 256, which is [str.isspace] there:
    TAB..CR, FS..US, space, NEL and NBSP. *)
Definition is_space (c : ascii) : bool :=
  let n := nat_of_ascii c in
  in_range 9 13 c || in_range 28 32 c || Nat.eqb n 133 || Nat.eqb n 160.

(** The longest prefix of [s] made of characters in the class [p], and what
    follows it. *)
Fixpoint takew (p : ascii -> bool) (s : string) : string :=
  match s with
  | String c s' => if p c then String c (takew p s') else ""
  | EmptyString => ""
  end.

Fixpoint dropw (p : ascii -> bool) (s : string) : string :=
  match s with
  | String c s' => if p c then dropw p s' else s
  | EmptyString => ""
  end.

Fixpoint all_in (p : ascii -> bool) (s : string) : bool :=
  match s with
  | String c s' => p c && all_in p s'
  | EmptyString => true
  end.

Definition starts_in (p : ascii -> bool) (s : string) : bool :=
  match s with
  | String c _ => p c
  | EmptyString => false
  end.

Definition is_empty (s : string) : bool :=
  match s with EmptyString => true | _ => false end.

(** ** Regular expressions: the fragment of Python's [re] the code uses *)

Inductive regex : Type :=
| Bol                              (* ^ *)
| Eol                              (* $ *)
| Lit (c : ascii)                  (* one literal character *)
| Class (p : ascii -> bool)        (* \d, \s, [A-Za-z] *)
| Seq (r1 r2 : regex)
| Opt (r : regex)                  (* r?  greedy *)
| Star (r : regex)                 (* r*  greedy *)
| Plus (r : regex)                 (* r+  greedy *)
| Group (n : nat) (r : regex).     (* capturing group number n *)

(** Group number to captured text. *)
Definition captures : Type := nat -> option string.

Definition no_captures : captures := fun _ => None.

Definition set_capture (n : nat) (s : string) (g : captures) : captures :=
  fun m => if Nat.eqb m n then Some s else g m.

(** A backtracking matcher in continuation-passing style: position (number
    of characters consumed), rest of the subject, captures so far. *)
Definition cont : Type := nat -> string -> captures -> option captures.
Definition matcher : Type := nat -> string -> captures -> cont -> option captures.

Definition or_else {A : Type} (a b : option A) : option A :=
  match a with Some x => Some x | None => b end.

(** Greedy iteration: one more round of [m] that consumes something, else
    go on with [k].  [fuel] bounds the rounds; the length of the rest is
    always enough. *)
Fixpoint star_loop (m : matcher) (fuel : nat) (pos : nat) (s : string)
    (g : captures) (k : cont) : option captures :=
  match fuel with
  | O => k pos s g
  | S fuel' =>
      or_else
        (m pos s g (fun pos' s' g' =>
           if Nat.ltb pos pos' then star_loop m fuel' pos' s' g' k else None))
        (k pos s g)
  end.

Fixpoint rx (r : regex) (pos : nat) (s : string) (g : captures) (k : cont)
    {struct r} : option captures :=
  match r with
  | Bol => if Nat.eqb pos 0 then k pos s g else None
  | Eol =>
      (* end of the string, or just before a newline that ends it *)
      match s with
      | EmptyString => k pos s g
      | String c EmptyString => if Ascii.eqb c newline then k pos s g else None
      | _ => None
      end
  | Lit c =>
      match s with
      | String a s' => if Ascii.eqb a c then k (S pos) s' g else None
      | EmptyString => None
      end
  | Class p =>
      match s with
      | String a s' => if p a then k (S pos) s' g else None
      | EmptyString => None
      end
  | Seq r1 r2 => rx r1 pos s g (fun pos' s' g' => rx r2 pos' s' g' k)
  | Opt r1 => or_else (rx r1 pos s g k) (k pos s g)
  | Star r1 => star_loop (rx r1) (String.length s) pos s g k
  | Plus r1 =>
      rx r1 pos s g (fun pos' s' g' =>
        star_loop (rx r1) (String.length s') pos' s' g' k)
  | Group n r1 =>
      rx r1 pos s g (fun pos' s' g' =>
        k pos' s' (set_capture n (substring 0 (pos' - pos) s) g'))
  end.

(** [re.match(r, s)]: a match that starts at the beginning of [s]; the
    result is the match object's groups, [None] when there is no match. *)
Definition re_match (r : regex) (s : string) : option captures :=
  rx r 0 s no_captures (fun _ _ g => Some g).

(** [m.group(n)]. *)
Definition group (m : captures) (n : nat) : option string := m n.

Infix ">>" := Seq (at level 60, right associativity).

(** [angle_re = re.compile(r"^(M?)R(\d+)(?:\.\d+)?$")] *)
Definition angle_re : regex :=
  Bol >> Group 1 (Opt (Lit "M")) >> Lit "R" >> Group 2 (Plus (Class is_digit))
      >> Opt (Lit "." >> Plus (Class is_digit)) >> Eol.

(** [prefix_re = re.compile(r"\s*([A-Za-z]+)\s*\d+\s*$")] *)
Definition prefix_re : regex :=
  Star (Class is_space) >> Group 1 (Plus (Class is_alpha))
      >> Star (Class is_space) >> Plus (Class is_digit)
      >> Star (Class is_space) >> Eol.

(** ** The parsed document (lxml elements) *)

Inductive node : Type :=
| Element (tag : string) (attrs : list (string * string)) (children : list node).

Definition tag_of (e : node) : string := let 'Element t _ _ := e in t.
Definition attrs_of (e : node) : list (string * string) := let 'Element _ a _ := e in a.
Definition children_of (e : node) : list node := let 'Element _ _ c := e in c.

Fixpoint assoc (name : string) (l : list (string * string)) : option string :=
  match l with
  | [] => None
  | (k, v) :: l' => if String.eqb k name then Some v else assoc name l'
  end.

(** [elem.get(name)]: the attribute's text, [None] when it is absent. *)
Definition get (elem : node) (name : string) : option string :=
  assoc name (attrs_of elem).

(** The element and its descendants in document order. *)
Fixpoint iter (e : node) : list node :=
  match e with
  | Element _ _ cs =>
      e :: (fix iter_all (l : list node) : list node :=
              match l with
              | [] => []
              | c :: l' => (iter c ++ iter_all l')%list
              end) cs
  end.

Definition has_attr (name value : string) (e : node) : bool :=
  match get e name with
  | Some v => String.eqb v value
  | None => false
  end.

(** [root.xpath("//tag")] *)
Definition xpath_tag (root : node) (tag : string) : list node :=
  filter (fun e => String.eqb (tag_of e) tag) (iter root).

(** [root.xpath("//tag[@name='value']")] for a [value] without apostrophe. *)
Definition xpath_tag_attr (root : node) (tag name value : string) : list node :=
  filter (has_attr name value) (xpath_tag root tag).

(** [e.xpath("tag")]: the child elements with that tag. *)
Definition xpath_child (e : node) (tag : string) : list node :=
  filter (fun c => String.eqb (tag_of c) tag) (children_of e).

Definition apostrophe : ascii := ascii_of_nat 39.

Fixpoint has_char (c : ascii) (s : string) : bool :=
  match s with
  | String a s' => Ascii.eqb a c || has_char c s'
  | EmptyString => false
  end.

(** [root.xpath("//package[@name='%s']" % package_name)].  The name is pasted
    into the expression: with an apostrophe in it the text is another XPath
    expression, as a rule an ill-formed one, for which lxml raises
    [XPathEvalError]; the model raises for every such name. *)
Definition xpath_package (root : node) (package_name : string) : result (list node) :=
  if has_char apostrophe package_name
  then Raise "XPathEvalError: Invalid expression"
  else Ok (xpath_tag_attr root "package" "name" package_name).

(** ** Python dicts: insertion-ordered, one entry per key *)

Section Dict.
Variables K V : Type.
Variable eqb : K -> K -> bool.

Definition dict : Type := list (K * V).

(** [d.get(k)] *)
Fixpoint dict_get (k : K) (d : dict) : option V :=
  match d with
  | [] => None
  | (k', v) :: d' => if eqb k' k then Some v else dict_get k d'
  end.

(** [d[k] = v]: an existing key keeps its place, a new one goes last. *)
Fixpoint dict_set (k : K) (v : V) (d : dict) : dict :=
  match d with
  | [] => [(k, v)]
  | (k', v') :: d' =>
      if eqb k' k then (k', v) :: d' else (k', v') :: dict_set k v d'
  end.

(** [d.keys()], [d.values()] *)
Definition dict_keys (d : dict) : list K := map fst d.
Definition dict_values (d : dict) : list V := map snd d.
End Dict.

(** [if k in d: d[k].append(x) else: d[k] = [x]] *)
Definition dict_append {K A : Type} (eqb : K -> K -> bool) (k : K) (x : A)
    (d : dict K (list A)) : dict K (list A) :=
  match dict_get eqb k d with
  | Some l => dict_set eqb k (l ++ [x])%list d
  | None => dict_set eqb k [x] d
  end.

Definition option_eqb {A : Type} (eqb : A -> A -> bool) (a b : option A) : bool :=
  match a, b with
  | Some x, Some y => eqb x y
  | None, None => true
  | _, _ => false
  end.

(** Keys of the layer index (a layer number as text, or [None]) and of the
    (layer, value) index. *)
Definition layer_eqb : option string -> option string -> bool :=
  option_eqb String.eqb.

Definition layer_value_eqb (a b : option string * string) : bool :=
  layer_eqb (fst a) (fst b) && String.eqb (snd a) (snd b).

(** [dl[0].get('number', 20)]: text when the attribute is there, else the
    integer 20. *)
Inductive str_or_int : Type :=
| PyStr (s : string)
| PyInt (z : Z).

(** [for x in xs: st = step(st, x)], stopping at the first exception. *)
Fixpoint foldM {A S : Type} (step : S -> A -> result S) (xs : list A) (st : S)
    : result S :=
  match xs with
  | [] => Ok st
  | x :: xs' => st' <- step st x ;; foldM step xs' st'
  end.

(** ** The board model and the extractor *)

Section Extractor.
(** Python floats, as far as the extractor uses them. *)
Variable F : Type.
Variable float_of_str : string -> option F.   (* float(s); None is ValueError *)
Variable flt : F -> F -> bool.                (* a < b *)
Variable fsub : F -> F -> F.                  (* a - b *)

Record Pad : Type := {
  pad_x : F;
  pad_y : F;
  pad_width : F;
  pad_height : F;
  pad_angle : option F
}.

(** [oid] stands for the identity of the Python object: the code compares
    components with [in], which is identity for this class.  It is the
    number of components created before this one. *)
Record Component : Type := {
  oid : nat;
  comp_x : F;
  comp_y : F;
  comp_name : string;
  comp_prefix : option string;
  comp_value : string;
  comp_pads : list Pad;
  comp_angle : option F;
  comp_layer : option string
}.

Record BoardInfo : Type := {
  value_to_components : dict string (list Component);
  name_to_component : dict string Component;
  layer_to_components : dict (option string) (list Component);
  layer_value_to_components : dict (option string * string) (list Component);
  components : list Component;
  dimension_layer_number : str_or_int;
  top_layer : string;
  bottom_layer : string;
  xmin : F;
  xmax : F;
  ymin : F;
  ymax : F;
  width : F;
  height : F
}.

(** [float(s)] *)
Definition pyfloat (s : string) : result F :=
  match float_of_str s with
  | Some v => Ok v
  | None => Raise ("ValueError: could not convert string to float: '" ++ s ++ "'")
  end.

Definition getfloat (elem : node) (name : string) : result F :=
  match get elem name with
  | None => Raise ("Expecting attribute '" ++ name ++ "'")
  | Some f =>
      match float_of_str f with
      | Some v => Ok v
      | None => Raise ("Non-float value for attribute '" ++ name ++ "'")
      end
  end.

(** [min(a, b, c)] and [max(a, b, c)]: the first argument is kept until a
    later one is strictly smaller (larger). *)
Definition min3 (a b c : F) : F :=
  let m := if flt b a then b else a in
  if flt c m then c else m.

Definition max3 (a b c : F) : F :=
  let m := if flt a b then b else a in
  if flt m c then c else m.

(** One round of the loop over the dimension wires, lines 90-94. *)
Definition wire_step (box : F * F * F * F) (w : node) : result (F * F * F * F) :=
  let '(xmin, ymin, xmax, ymax) := box in
  x1 <- getfloat w "x1" ;; x2 <- getfloat w "x2" ;;
  let xmin := min3 xmin x1 x2 in
  y1 <- getfloat w "y1" ;; y2 <- getfloat w "y2" ;;
  let ymin := min3 ymin y1 y2 in
  x1 <- getfloat w "x1" ;; x2 <- getfloat w "x2" ;;
  let xmax := max3 xmax x1 x2 in
  y1 <- getfloat w "y1" ;; y2 <- getfloat w "y2" ;;
  let ymax := max3 ymax y1 y2 in
  Ok (xmin, ymin, xmax, ymax).

(** [float(m.group(n))] *)
Definition float_group (m : captures) (n : nat) : result F :=
  match group m n with
  | Some d => pyfloat d
  | None => Raise "TypeError: float() argument must be a string or a real number"
  end.

(** Lines 134-142: the element's [rot] attribute. *)
Definition element_rot (c : node) : result (option F * bool) :=
  match get c "rot" with
  | None => Ok (None, false)
  | Some rot =>
      match re_match angle_re rot with
      | None => Raise ("Could not parse angle '" ++ rot ++ "'")
      | Some m =>
          eangle <- float_group m 2 ;;
          Ok (Some eangle, option_eqb String.eqb (group m 1) (Some "M"))
      end
  end.

(** Lines 162-168: a pad's [rot] attribute. *)
Definition pad_rot (p : node) : result (option F) :=
  match get p "rot" with
  | None => Ok None
  | Some rot =>
      match re_match angle_re rot with
      | None => Raise "Could not parse angle"
      | Some m => pangle <- float_group m 2 ;; Ok (Some pangle)
      end
  end.

(** Lines 152-156. *)
Definition resolve_layer (mirrored : bool) (top bottom complayer : string) : string :=
  if mirrored then
    if String.eqb complayer top then bottom
    else if String.eqb complayer bottom then top
    else complayer
  else complayer.

(** One round of the loop over the package's pads, lines 146-175; the
    state is [(ourpads, complayer)]. *)
Definition pad_step (mirrored : bool) (top bottom : string)
    (st : list Pad * option string) (p : node)
    : result (list Pad * option string) :=
  let '(ourpads, complayer) := st in
  match get p "layer" with
  | None => Raise "Could not get pad layer"
  | Some l =>
      let complayer :=
        match complayer with
        | None => Some (resolve_layer mirrored top bottom l)
        | Some _ => complayer
        end in
      x <- getfloat p "x" ;;
      y <- getfloat p "y" ;;
      pangle <- pad_rot p ;;
      dx <- getfloat p "dx" ;;
      dy <- getfloat p "dy" ;;
      let op := {| pad_x := x; pad_y := y; pad_width := dx; pad_height := dy;
                   pad_angle := pangle |} in
      Ok ((ourpads ++ [op])%list, complayer)
  end.

(** [re.match(prefix_re, compname)] and [m.group(1)], lines 110-113. *)
Definition name_prefix (compname : string) : option string :=
  match re_match prefix_re compname with
  | Some m => group m 1
  | None => None
  end.

(** What the loop over the elements has built so far: the indices of [bi],
    [ourcomps] and the lines printed. *)
Record building : Type := {
  b_value : dict string (list Component);
  b_name : dict string Component;
  b_layer : dict (option string) (list Component);
  b_layer_value : dict (option string * string) (list Component);
  ourcomps : list Component;
  printed : list string
}.

Definition add_component (b : building) (com : Component) : building :=
  {| ourcomps := (ourcomps b ++ [com])%list;
     b_name := dict_set String.eqb (comp_name com) com (b_name b);
     b_value := dict_append String.eqb (comp_value com) com (b_value b);
     b_layer := dict_append layer_eqb (comp_layer com) com (b_layer b);
     b_layer_value :=
       dict_append layer_value_eqb (comp_layer com, comp_value com) com
         (b_layer_value b);
     printed := printed b |}.

Definition skip_message (package_name compname : string) : string :=
  "Skipping package '" ++ package_name ++ "' (component '" ++ compname
    ++ "') since it has no pads".

(** Lines 106-186 of the loop over the elements: the component built from
    the element [c], the [n]-th one created, or the line printed when the
    element is skipped. *)
Definition read_element (root : node) (top bottom : string) (n : nat)
    (c : node) : result (Component + string) :=
  match get c "name" with
  | None => Raise "Component without name"
  | Some compname =>
  if String.eqb compname "" then Raise "Component without name" else
  let compprefix := name_prefix compname in
  match get c "value" with
  | None => Raise "Component without value"
  | Some compvalue =>
  match get c "package" with
  | None => Raise "Component without package"
  | Some package_name =>
  package <- xpath_package root package_name ;;
  match package with
  | [] => Raise "Could not find package"
  | package0 :: _ =>
  let ppads := xpath_child package0 "smd" in
  match ppads with
  | [] => Ok (inr (skip_message package_name compname))
  | _ :: _ =>
      compx <- getfloat c "x" ;;
      compy <- getfloat c "y" ;;
      rot <- element_rot c ;;
      let '(eangle, mirrored) := rot in
      pads <- foldM (pad_step mirrored top bottom) ppads ([], None) ;;
      let '(ourpads, complayer) := pads in
      Ok (inl {| oid := n;
                 comp_x := compx; comp_y := compy; comp_name := compname;
                 comp_prefix := compprefix; comp_value := compvalue;
                 comp_pads := ourpads; comp_angle := eangle;
                 comp_layer := complayer |})
  end end end end end.

Definition print_line (b : building) (line : string) : building :=
  {| ourcomps := ourcomps b; b_name := b_name b; b_value := b_value b;
     b_layer := b_layer b; b_layer_value := b_layer_value b;
     printed := (printed b ++ [line])%list |}.

(** One round of the loop over the elements, lines 105-203: [continue]
    after the line printed, or lines 187-203 on the component built. *)
Definition element_step (root : node) (top bottom : string) (b : building)
    (c : node) : result building :=
  r <- read_element root top bottom (List.length (ourcomps b)) c ;;
  match r with
  | inr line => Ok (print_line b line)
  | inl com => Ok (add_component b com)
  end.

Definition empty_building : building :=
  {| b_value := []; b_name := []; b_layer := []; b_layer_value := [];
     ourcomps := []; printed := [] |}.

(** [get_board_info] on the parsed document; the result is [bi] and the
    lines printed on the way. *)
Definition get_board_info_out (root : node) : result (BoardInfo * list string) :=
  match xpath_tag_attr root "layer" "name" "Dimension" with
  | [] => Raise "Could not find Dimension layer def"
  | dl0 :: _ =>
  let dimension_layer_number :=
    match get dl0 "number" with Some s => PyStr s | None => PyInt 20 end in
  match xpath_tag_attr root "layer" "name" "Top" with
  | [] => Raise "Could not find Top layer def"
  | tl0 :: _ =>
  let top := match get tl0 "number" with Some s => s | None => "1" end in
  match xpath_tag_attr root "layer" "name" "Bottom" with
  | [] => Raise "Could not find Bottom layer def"
  | bl0 :: _ =>
  let bottom := match get bl0 "number" with Some s => s | None => "16" end in
  let ws := xpath_tag_attr root "wire" "layer" "20" in
  if Nat.ltb (List.length ws) 2
  then Raise "Error processing dimension layer wires" else
  xmin <- pyfloat "+inf" ;; ymin <- pyfloat "+inf" ;;
  xmax <- pyfloat "-inf" ;; ymax <- pyfloat "-inf" ;;
  box <- foldM wire_step ws (xmin, ymin, xmax, ymax) ;;
  let '(xmin, ymin, xmax, ymax) := box in
  b <- foldM (element_step root top bottom) (xpath_tag root "element")
         empty_building ;;
  Ok ({| value_to_components := b_value b;
         name_to_component := b_name b;
         layer_to_components := b_layer b;
         layer_value_to_components := b_layer_value b;
         components := ourcomps b;
         dimension_layer_number := dimension_layer_number;
         top_layer := top;
         bottom_layer := bottom;
         xmin := xmin; xmax := xmax; ymin := ymin; ymax := ymax;
         width := fsub xmax xmin;
         height := fsub ymax ymin |},
      printed b)
  end end end.

Definition get_board_info (root : node) : result BoardInfo :=
  r <- get_board_info_out root ;; Ok (fst r).
End Extractor.

(** ** The output surface (reportlab canvas), as the calls made on it *)

Inductive color : Type :=
| lightgrey
| black.

Definition NORMAL_COLOR : color := lightgrey.
Definition HIGHLIGHT_COLOR : color := black.

Inductive path_op (F : Type) : Type :=
| MoveTo (x y : F)
| LineTo (x y : F).

Inductive canvas_op (F : Type) : Type :=
| SetPageSize (w h : F)
| SetFont (name : string) (size : F)
| DrawCentredString (x y : F) (text : string)
| SetFillColor (c : color)
| DrawPath (pth : list (path_op F)) (fill stroke : Z)
| ShowPage.
Arguments ShowPage {F}.
Arguments SetFillColor {F} c.

(** A canvas is the list of the calls it has received, oldest first. *)
Definition canvas (F : Type) : Type := list (canvas_op F).

(** [names.sort()] on strings: insertion sort by code points. *)
Fixpoint insert_sorted (s : string) (l : list string) : list string :=
  match l with
  | [] => [s]
  | t :: l' => if String.leb s t then s :: l else t :: insert_sorted s l'
  end.

Definition sort_names (l : list string) : list string :=
  fold_right insert_sorted [] l.

(** ** Pad renderer and sheet layout driver *)

Section Renderer.
Variable F : Type.
Variable of_Z : Z -> F.              (* the float of an integer: 2, 180, 10.0 *)
Variables fadd fsub fmul fdiv : F -> F -> F.
Variable fneg : F -> F.
Variables fcos fsin : F -> F.        (* math.cos, math.sin *)
Variable fpi : F.                    (* math.pi *)

Definition rotate_coords (xy : F * F) (angle : option F) : F * F :=
  match angle with
  | None => xy
  | Some angle =>
      let angle := fmul (fdiv angle (of_Z 180)) fpi in
      let '(x, y) := xy in
      let x2 := fsub (fmul x (fcos angle)) (fmul y (fsin angle)) in
      let y2 := fadd (fmul x (fsin angle)) (fmul y (fcos angle)) in
      (x2, y2)
  end.

(** Lines 209-216: the corners in board coordinates. *)
Definition pad_corners (c : Component F) (p : Pad F) : list (F * F) :=
  let corners :=
    [ (fneg (fdiv (pad_width p) (of_Z 2)), fneg (fdiv (pad_height p) (of_Z 2)));
      (fneg (fdiv (pad_width p) (of_Z 2)), fdiv (pad_height p) (of_Z 2));
      (fdiv (pad_width p) (of_Z 2), fdiv (pad_height p) (of_Z 2));
      (fdiv (pad_width p) (of_Z 2), fneg (fdiv (pad_height p) (of_Z 2))) ] in
  let corners := map (fun cr => rotate_coords cr (pad_angle p)) corners in
  let corners := map (fun cr => (fadd (fst cr) (pad_x p), fadd (snd cr) (pad_y p))) corners in
  let corners := map (fun cr => rotate_coords (fst cr, snd cr) (comp_angle c)) corners in
  let corners := map (fun cr => (fadd (fst cr) (comp_x c), fadd (snd cr) (comp_y c))) corners in
  corners.

(** Lines 217-220: [moveTo] the first corner, [lineTo] the others. *)
Definition pad_path (bi : BoardInfo F) (corners : list (F * F)) : list (path_op F) :=
  match corners with
  | [] => []
  | c0 :: rest =>
      MoveTo (fsub (fst c0) (xmin bi)) (fsub (snd c0) (ymin bi))
      :: map (fun ci => LineTo (fsub (fst ci) (xmin bi)) (fsub (snd ci) (ymin bi))) rest
  end.

Definition render_component_pad (cv : canvas F) (bi : BoardInfo F)
    (c : Component F) (p : Pad F) (highlight : bool) : canvas F :=
  let pth := pad_path bi (pad_corners c p) in
  (cv ++ [ SetFillColor (if highlight then HIGHLIGHT_COLOR else NORMAL_COLOR);
           DrawPath pth 1 0 ])%list.

(** [c in cs] for components: the same object. *)
Definition comp_in (c : Component F) (cs : list (Component F)) : bool :=
  existsb (fun c' => Nat.eqb (oid c') (oid c)) cs.

Definition render_pads (bi : BoardInfo F) (highlight : bool)
    (cv : canvas F) (c : Component F) : canvas F :=
  fold_left (fun cv p => render_component_pad cv bi c p highlight) (comp_pads c) cv.

Definition render_components (cv : canvas F) (bi : BoardInfo F)
    (all_cs val_cs : list (Component F)) : canvas F :=
  let cv :=
    fold_left (fun cv c => if comp_in c val_cs then cv else render_pads bi false cv c)
      all_cs cv in
  fold_left (render_pads bi true) val_cs cv.

Definition prefix_eqb : option string -> option string -> bool :=
  option_eqb String.eqb.

(** Lines 248-253. *)
Definition group_by_prefix (val_cs : list (Component F))
    : dict (option string) (list (Component F)) :=
  fold_left (fun prefixes vc => dict_append prefix_eqb (comp_prefix vc) vc prefixes)
    val_cs [].

Definition heading (val : string) (prefix_cs : list (Component F)) : string :=
  let names := sort_names (map (@comp_name F) prefix_cs) in
  "V = " ++ val ++ ", N = " ++ String.concat "," names.

(** Lines 258-264: the page of one prefix group. *)
Definition page (bi : BoardInfo F) (headingspace cwidth cheight : F)
    (val : string) (all_cs val_cs : list (Component F))
    (cv : canvas F) (prefix_cs : list (Component F)) : canvas F :=
  let cv := (cv ++ [ SetFont "Helvetica" (fdiv headingspace (of_Z 5)) ])%list in
  let cv := (cv ++ [ DrawCentredString (fdiv cwidth (of_Z 2))
                       (fsub cheight (fdiv headingspace (of_Z 2)))
                       (heading val prefix_cs) ])%list in
  let cv := render_components cv bi all_cs val_cs in
  (cv ++ [ ShowPage ])%list.

(** Lines 244-264: the pages of one value. *)
Definition value_pages (bi : BoardInfo F) (layer : string)
    (headingspace cwidth cheight : F) (cv : canvas F) (val : string) : canvas F :=
  match dict_get layer_value_eqb (Some layer, val) (layer_value_to_components bi) with
  | None => cv
  | Some val_cs =>
      let prefixes := group_by_prefix val_cs in
      let all_cs :=
        match dict_get layer_eqb (Some layer) (layer_to_components bi) with
        | Some l => l
        | None => []
        end in
      fold_left (page bi headingspace cwidth cheight val all_cs val_cs)
        (dict_values prefixes) cv
  end.

Definition layout_by_same_value (cv : canvas F) (bi : BoardInfo F)
    (layer : string) : canvas F :=
  let headingspace := fdiv (height bi) (of_Z 10) in
  let cwidth := width bi in
  let cheight := fadd (height bi) headingspace in
  let cv := (cv ++ [ SetPageSize cwidth cheight ])%list in
  let values := dict_keys (value_to_components bi) in
  fold_left (value_pages bi layer headingspace cwidth cheight) values cv.
End Renderer.

(** ** What [float(str)] reads: exact decimals

    The grammar of Python's [float] on text: blanks stripped at both ends, an
    optional sign, then [inf], [infinity] or [nan] in any letter case, or a
    decimal numeral with an optional exponent, underscores allowed between
    digits.  The value of a numeral is kept as the exact decimal [m * 10^e];
    its rounding to a binary64 (and the overflow of a huge one to an
    infinity, the sign of a zero) is not modelled. *)

Inductive dfloat : Type :=
| DFin (m e : Z)          (* m * 10^e *)
| DInf (neg : bool)       (* +inf, -inf *)
| DNan.

Definition lstrip (s : string) : string := dropw is_space s.

Fixpoint rstrip (s : string) : string :=
  match s with
  | String c s' =>
      let r := rstrip s' in
      if is_empty r && is_space c then "" else String c r
  | EmptyString => ""
  end.

Definition strip (s : string) : string := rstrip (lstrip s).

Definition to_lower (c : ascii) : ascii :=
  if in_range 65 90 c then ascii_of_nat (nat_of_ascii c + 32) else c.

Fixpoint lower (s : string) : string :=
  match s with
  | String c s' => String (to_lower c) (lower s')
  | EmptyString => ""
  end.

(** An optional sign: whether it is a minus, and what follows. *)
Definition read_sign (s : string) : bool * string :=
  match s with
  | String "+" s' => (false, s')
  | String "-" s' => (true, s')
  | _ => (false, s)
  end.

(** [digit (["_"] digit)*]: the digits read and what follows; no digits when
    [s] does not start with one. *)
Fixpoint digitpart (s : string) : string * string :=
  match s with
  | String c s' =>
      if is_digit c then
        match s' with
        | String "_" s'' =>
            if starts_in is_digit s''
            then let (ds, r) := digitpart s'' in (String c ds, r)
            else (String c "", s')
        | _ => let (ds, r) := digitpart s' in (String c ds, r)
        end
      else ("", s)
  | EmptyString => ("", "")
  end.

Definition digit_val (c : ascii) : Z := Z.of_nat (nat_of_ascii c - 48).

Fixpoint digits_acc (acc : Z) (s : string) : Z :=
  match s with
  | String c s' => digits_acc (10 * acc + digit_val c) s'
  | EmptyString => acc
  end.

(** The number a string of digits denotes. *)
Definition digits_to_Z (s : string) : Z := digits_acc 0 s.

(** [("e" | "E") [sign] digitpart], or nothing: the exponent and what
    follows; [None] for an [e] without its digits. *)
Definition read_exponent (s : string) : option (Z * string) :=
  match s with
  | String c s' =>
      if Ascii.eqb (to_lower c) "e" then
        let (neg, s1) := read_sign s' in
        let (ds, r) := digitpart s1 in
        if is_empty ds then None
        else Some (if neg then (- digits_to_Z ds)%Z else digits_to_Z ds, r)
      else Some (0%Z, s)
  | EmptyString => Some (0%Z, s)
  end.

(** [[digitpart] "." digitpart | digitpart ["."]], then the exponent, up to
    the end of the text. *)
Definition read_number (neg : bool) (s : string) : option dfloat :=
  let (ip, r1) := digitpart s in
  let frac :=
    match r1 with
    | String "." r =>
        let (fp, r2) := digitpart r in
        if is_empty ip && is_empty fp then None else Some (fp, r2)
    | _ => if is_empty ip then None else Some ("", r1)
    end in
  match frac with
  | None => None
  | Some (fp, r2) =>
      match read_exponent r2 with
      | Some (ex, EmptyString) =>
          let m := digits_to_Z (ip ++ fp) in
          Some (DFin (if neg then (- m)%Z else m)
                     (ex - Z.of_nat (String.length fp)))
      | _ => None
      end
  end.

(** [float(s)] on text. *)
Definition dfloat_of_str (s : string) : option dfloat :=
  let (neg, body) := read_sign (strip s) in
  let l := lower body in
  if String.eqb l "inf" || String.eqb l "infinity" then Some (DInf neg)
  else if String.eqb l "nan" then Some DNan
  else read_number neg body.

(** [a < b]: false as soon as one side is a NaN. *)
Definition dflt (a b : dfloat) : bool :=
  match a, b with
  | DNan, _ | _, DNan => false
  | DInf true, DInf true => false
  | DInf true, _ => true
  | _, DInf true => false
  | DInf false, _ => false
  | _, DInf false => true
  | DFin m1 e1, DFin m2 e2 =>
      let e := Z.min e1 e2 in
      (m1 * 10 ^ (e1 - e) <? m2 * 10 ^ (e2 - e))%Z
  end.

(** [a - b], exact on decimals. *)
Definition dfsub (a b : dfloat) : dfloat :=
  match a, b with
  | DNan, _ | _, DNan => DNan
  | DInf s1, DInf s2 => if Bool.eqb s1 s2 then DNan else DInf s1
  | DInf s1, DFin _ _ => DInf s1
  | DFin _ _, DInf s2 => DInf (negb s2)
  | DFin m1 e1, DFin m2 e2 =>
      let e := Z.min e1 e2 in
      DFin (m1 * 10 ^ (e1 - e) - m2 * 10 ^ (e2 - e)) e
  end.

Definition is_finite (v : dfloat) : bool :=
  match v with DFin _ _ => true | _ => false end.

(** ** The two patterns read without backtracking *)

(** What [re.match(prefix_re, name)] finds, read left to right: blanks, the
    run of letters, blanks, the run of digits, blanks, the end. *)
Definition prefix_scan (name : string) : option string :=
  let s1 := dropw is_space name in
  let letters := takew is_alpha s1 in
  let s2 := dropw is_space (dropw is_alpha s1) in
  let digits := takew is_digit s2 in
  let s3 := dropw is_space (dropw is_digit s2) in
  if is_empty letters then None
  else if is_empty digits then None
  else if is_empty s3 then Some letters
  else None.

(** The shape the specification gives to a name with a prefix: a run of
    letters first, then blanks if any, then digits up to the end. *)
Definition prefix_shape (name letters : string) : Prop :=
  exists blanks digits,
    name = letters ++ blanks ++ digits /\
    letters <> "" /\ all_in is_alpha letters = true /\
    all_in is_space blanks = true /\
    digits <> "" /\ all_in is_digit digits = true.

(** The same shape with blanks allowed before the letters and after the
    digits. *)
Definition prefix_shape_padded (name letters : string) : Prop :=
  exists lead blanks digits trail,
    name = lead ++ letters ++ blanks ++ digits ++ trail /\
    all_in is_space lead = true /\
    letters <> "" /\ all_in is_alpha letters = true /\
    all_in is_space blanks = true /\
    digits <> "" /\ all_in is_digit digits = true /\
    all_in is_space trail = true.

Fixpoint last_char (s : string) : option ascii :=
  match s with
  | EmptyString => None
  | String c EmptyString => Some c
  | String _ s' => last_char s'
  end.

(** The continuation of [re.match]: whatever is left, the match is found. *)
Definition k_end : cont := fun _ _ g => Some g.

(** Where [$] matches: at the end, or before a newline that ends the text. *)
Definition at_end (s : string) : bool :=
  match s with
  | EmptyString => true
  | String c EmptyString => Ascii.eqb c newline
  | _ => false
  end.

(** What is left after [(?:\.\d+)?]. *)
Definition after_fraction (s : string) : string :=
  match s with
  | String c f =>
      if Ascii.eqb c "." && negb (is_empty (takew is_digit f))
      then dropw is_digit f else s
  | EmptyString => s
  end.

(** What [re.match(angle_re, rot)] finds, read left to right: whether the
    mirror marker is there, and the digits before the dot. *)
Definition angle_scan_body (mirror : bool) (s1 : string) : option (bool * string) :=
  match s1 with
  | String c s2 =>
      if Ascii.eqb c "R" then
        if is_empty (takew is_digit s2) then None
        else if at_end (after_fraction (dropw is_digit s2))
             then Some (mirror, takew is_digit s2) else None
      else None
  | EmptyString => None
  end.

Definition angle_scan (rot : string) : option (bool * string) :=
  match rot with
  | String c r =>
      if Ascii.eqb c "M" then angle_scan_body true r
      else angle_scan_body false rot
  | EmptyString => None
  end.

Definition angle_captures (r : bool * string) : captures :=
  set_capture 2 (snd r) (set_capture 1 (if fst r then "M" else "") no_captures).

(** A fractional suffix, or none: a dot and digits. *)
Definition fraction_shape (frac : string) : Prop :=
  frac = "" \/
  exists fd, frac = String "." fd /\ fd <> "" /\ all_in is_digit fd = true.

(** The shape the specification gives to a rotation descriptor: the mirror
    marker if any, [R], digits, a fractional suffix if any. *)
Definition rot_shape (rot : string) (mirror : bool) (digits : string) : Prop :=
  exists frac,
    rot = (if mirror then "M" else "") ++ "R" ++ digits ++ frac /\
    digits <> "" /\ all_in is_digit digits = true /\ fraction_shape frac.

(** The same shape with a newline allowed after it. *)
Definition rot_shape_nl (rot : string) (mirror : bool) (digits : string) : Prop :=
  exists frac nl,
    rot = (if mirror then "M" else "") ++ "R" ++ digits ++ frac ++ nl /\
    digits <> "" /\ all_in is_digit digits = true /\ fraction_shape frac /\
    (nl = "" \/ nl = String newline "").

(** ** Notions used to state the index properties *)

(** The components of [cs] filed under the key [k]. *)
Definition filed {K A : Type} (eqb : K -> K -> bool) (key : A -> K) (k : K)
    (cs : list A) : list A :=
  filter (fun c => eqb (key c) k) cs.

(** An index groups [cs] by [key]: under each key that occurs, the components
    with that key in the order of [cs]; nothing under the others. *)
Definition grouped {K A : Type} (eqb : K -> K -> bool) (key : A -> K)
    (d : dict K (list A)) (cs : list A) : Prop :=
  forall k,
    dict_get eqb k d
    = match filed eqb key k cs with [] => None | l => Some l end.

(** The nominal layer of the first pad of the element's package. *)
Definition first_pad_layer (root c : node) : option string :=
  match get c "package" with
  | Some package_name =>
      match xpath_package root package_name with
      | Ok (package0 :: _) =>
          match xpath_child package0 "smd" with
          | p0 :: _ => get p0 "layer"
          | [] => None
          end
      | _ => None
      end
  | None => None
  end.

(** The surface-mount pad definitions of the element's package. *)
Definition package_pads (root c : node) : option (list node) :=
  match get c "package" with
  | Some package_name =>
      match xpath_package root package_name with
      | Ok (package0 :: _) => Some (xpath_child package0 "smd")
      | _ => None
      end
  | None => None
  end.

Definition result_map {A B : Type} (f : A -> B) (r : result A) : result B :=
  match r with
  | Ok a => Ok (f a)
  | Raise msg => Raise msg
  end.

(** How many times the object [x] occurs in a list of components. *)
Definition count_oid {F : Type} (x : nat) (cs : list (Component F)) : nat :=
  List.length (filter (fun c => Nat.eqb (oid c) x) cs).

(** The component is held by an entry of one of the four indices. *)
Definition indexed {F : Type} (bi : BoardInfo F) (com : Component F) : Prop :=
  (exists k, In (k, com) (name_to_component bi)) \/
  (exists k l, In (k, l) (value_to_components bi) /\ In com l) \/
  (exists k l, In (k, l) (layer_to_components bi) /\ In com l) \/
  (exists k l, In (k, l) (layer_value_to_components bi) /\ In com l).

Definition layer_value_key {F : Type} (c : Component F) : option string * string :=
  (comp_layer c, comp_value c).

(** What the loop over the elements keeps true of the indices and
    [ourcomps]. *)
Record building_ok (F : Type) (float_of_str : string -> option F)
    (root : node) (top bottom : string) (b : building F) : Prop := {
  ok_oids : map (@oid F) (ourcomps b) = seq 0 (List.length (ourcomps b));
  ok_value : grouped String.eqb (@comp_value F) (b_value b) (ourcomps b);
  ok_layer : grouped layer_eqb (@comp_layer F) (b_layer b) (ourcomps b);
  ok_layer_value :
    grouped layer_value_eqb (@layer_value_key F) (b_layer_value b) (ourcomps b);
  ok_name :
    forall nm, dict_get String.eqb nm (b_name b)
               = find (fun c => String.eqb (comp_name c) nm) (rev (ourcomps b));
  ok_name_in : forall k com, In (k, com) (b_name b) -> In com (ourcomps b);
  ok_value_in : forall k l, In (k, l) (b_value b) -> incl l (ourcomps b);
  ok_layer_in : forall k l, In (k, l) (b_layer b) -> incl l (ourcomps b);
  ok_layer_value_in :
    forall k l, In (k, l) (b_layer_value b) -> incl l (ourcomps b);
  ok_read :
    forall com, In com (ourcomps b) ->
    exists c n, In c (xpath_tag root "element") /\
                read_element float_of_str root top bottom n c = Ok (inl com)
}.

(** ** Notions used to state the renderer and layout properties *)

Section RendererNotions.
Variable F : Type.
Variable of_Z : Z -> F.
Variables fadd fsub fmul fdiv : F -> F -> F.
Variable fneg : F -> F.
Variables fcos fsin : F -> F.
Variable fpi : F.

(** The transform of the pad renderer as the specification gives it. *)
Definition translate (d pt : F * F) : F * F :=
  (fadd (fst pt) (fst d), fadd (snd pt) (snd d)).

(** Counter-clockwise rotation about the origin by [angle] degrees, that
    is by [angle / 180 * pi] radians; the identity without an angle. *)
Definition rotate_ccw (angle : option F) (pt : F * F) : F * F :=
  match angle with
  | None => pt
  | Some a =>
      let t := fmul (fdiv a (of_Z 180)) fpi in
      (fsub (fmul (fst pt) (fcos t)) (fmul (snd pt) (fsin t)),
       fadd (fmul (fst pt) (fsin t)) (fmul (snd pt) (fcos t)))
  end.

(** The corners [(±width/2, ±height/2)] of a pad, in the order drawn. *)
Definition local_corners (p : Pad F) : list (F * F) :=
  let w2 := fdiv (pad_width p) (of_Z 2) in
  let h2 := fdiv (pad_height p) (of_Z 2) in
  [ (fneg w2, fneg h2); (fneg w2, h2); (w2, h2); (w2, fneg h2) ].

Definition page_point (bi : BoardInfo F) (c : Component F) (p : Pad F)
    (pt : F * F) : F * F :=
  translate (fneg (xmin bi), fneg (ymin bi))
    (translate (comp_x c, comp_y c)
       (rotate_ccw (comp_angle c)
          (translate (pad_x p, pad_y p)
             (rotate_ccw (pad_angle p) pt)))).

(** A closed outline through the points: [moveTo] the first, [lineTo] the
    others. *)
Definition polygon (pts : list (F * F)) : list (path_op F) :=
  match pts with
  | [] => []
  | q :: qs => MoveTo (fst q) (snd q) :: map (fun q => LineTo (fst q) (snd q)) qs
  end.

(** The calls that draw one pad, and all the pads of a component. *)
Definition draw_pad (bi : BoardInfo F) (c : Component F) (highlight : bool)
    (p : Pad F) : canvas F :=
  [ SetFillColor (if highlight then HIGHLIGHT_COLOR else NORMAL_COLOR);
    DrawPath (pad_path fsub bi
                (pad_corners of_Z fadd fsub fmul fdiv fneg fcos fsin fpi c p))
      1 0 ].

Definition draw_component (bi : BoardInfo F) (highlight : bool)
    (c : Component F) : canvas F :=
  flat_map (draw_pad bi c highlight) (comp_pads c).

(** A page of the output: its heading, the components drawn in the muted
    tone and those drawn in the highlight tone. *)
Record sheet : Type := {
  sheet_heading : string;
  sheet_muted : list (Component F);
  sheet_highlighted : list (Component F)
}.

Definition value_sheets (bi : BoardInfo F) (layer val : string) : list sheet :=
  match dict_get layer_value_eqb (Some layer, val) (layer_value_to_components bi) with
  | None => []
  | Some val_cs =>
      let all_cs :=
        match dict_get layer_eqb (Some layer) (layer_to_components bi) with
        | Some l => l
        | None => []
        end in
      map (fun prefix_cs =>
             {| sheet_heading := heading val prefix_cs;
                sheet_muted := filter (fun c => negb (comp_in c val_cs)) all_cs;
                sheet_highlighted := val_cs |})
        (dict_values (group_by_prefix val_cs))
  end.

(** The pages of a layer, in the order they are emitted. *)
Definition layout_sheets (bi : BoardInfo F) (layer : string) : list sheet :=
  flat_map (value_sheets bi layer) (dict_keys (value_to_components bi)).

Definition sheet_ops (bi : BoardInfo F) (headingspace cwidth cheight : F)
    (sh : sheet) : canvas F :=
  ([ SetFont "Helvetica" (fdiv headingspace (of_Z 5));
     DrawCentredString (fdiv cwidth (of_Z 2))
       (fsub cheight (fdiv headingspace (of_Z 2))) (sheet_heading sh) ]
   ++ flat_map (draw_component bi false) (sheet_muted sh)
   ++ flat_map (draw_component bi true) (sheet_highlighted sh)
   ++ [ ShowPage ])%list.
End RendererNotions.

(** ** Sample inputs *)

(** [<element name="R1" rot="MR270.5"/>] *)
Definition element_mr270 : node :=
  Element "element" [("name", "R1"); ("rot", "MR270.5")] [].

(** A [rot] attribute of [R90] and a newline (written [R90&#10;] in the
    file). *)
Definition rot_r90_nl : string := "R90" ++ String newline "".

Definition element_r90_nl : node :=
  Element "element" [("name", "R1"); ("rot", rot_r90_nl)] [].

(** [<wire x1="inf" .../>] *)
Definition wire_inf : node :=
  Element "wire" [("layer", "20"); ("x1", "inf"); ("y1", "0"); ("x2", "1"); ("y2", "1")] [].

Definition layer_def (number name : string) : node :=
  Element "layer" [("number", number); ("name", name)] [].

Definition wire (layer x1 y1 x2 y2 : string) : node :=
  Element "wire" [("x1", x1); ("y1", y1); ("x2", x2); ("y2", y2); ("layer", layer)] [].

Definition smd (name x y dx dy layer : string) : node :=
  Element "smd" [("name", name); ("x", x); ("y", y); ("dx", dx); ("dy", dy);
                 ("layer", layer)] [].

Definition element (name value package x y : string) (rot : option string) : node :=
  Element "element"
    ([("name", name); ("value", value); ("package", package); ("x", x); ("y", y)]
     ++ match rot with Some r => [("rot", r)] | None => [] end)%list [].

(** The outline of a 100 by 50 board, on the layer given. *)
Definition outline (layer : string) : list node :=
  [ wire layer "0" "0" "100" "0"; wire layer "100" "0" "100" "50";
    wire layer "100" "50" "0" "50"; wire layer "0" "50" "0" "0" ].

Definition packages : node :=
  Element "packages" []
    [ Element "package" [("name", "0402")]
        [ smd "1" "-0.5" "0" "0.5" "0.6" "1"; smd "2" "0.5" "0" "0.5" "0.6" "1" ];
      Element "package" [("name", "HOLE")]
        [ Element "hole" [("x", "0"); ("y", "0"); ("drill", "3.2")] [] ] ].

Definition element_R2 : node := element "R2" "10k" "0402" "50" "20" (Some "R180").
Definition element_R2_mirrored : node :=
  element "R2" "10k" "0402" "50" "20" (Some "MR180").
Definition element_H1 : node := element "H1" "" "HOLE" "5" "5" None.

(** A board with two parts of value 100 on the top side, a resistor and a
    capacitor, a mirrored resistor of another value and a mounting hole; the
    dimension layer has the number given, and [plain] holds the wires. *)
Definition board (dimension : string) (plain : list node) : node :=
  Element "eagle" []
    [ Element "layers" []
        [ layer_def "1" "Top"; layer_def "16" "Bottom";
          layer_def dimension "Dimension" ];
      Element "plain" [] plain;
      packages;
      Element "elements" []
        [ element "R1" "100" "0402" "10" "20" None;
          element "C1" "100" "0402" "30" "20" (Some "R90");
          element_R2_mirrored;
          element_H1 ] ].

(** The usual file, with the dimension layer numbered 20; one that numbers
    it 21; and one that numbers it 21 and has two other wires on the layer
    20. *)
Definition board20 : node := board "20" (outline "20").
Definition board21 : node := board "21" (outline "21").
Definition board21_with_20 : node :=
  board "21" (outline "21" ++ [ wire "20" "0" "0" "10" "0";
                                wire "20" "10" "0" "10" "10" ])%list.

Definition extract (root : node) : result (BoardInfo dfloat) :=
  get_board_info dfloat_of_str dflt dfsub root.

(** A pad and a component with real coordinates, for the renderer. *)
Definition pad_ideal : Pad R :=
  {| pad_x := 1%R; pad_y := 0%R; pad_width := 2%R; pad_height := 1%R;
     pad_angle := Some 90%R |}.

Definition component_ideal : Component R :=
  {| oid := 0; comp_x := 10%R; comp_y := 20%R; comp_name := "R1";
     comp_prefix := Some "R"; comp_value := "100"; comp_pads := [pad_ideal];
     comp_angle := None; comp_layer := Some "1" |}.

Definition board_ideal : BoardInfo R :=
  {| value_to_components := [("100", [component_ideal])];
     name_to_component := [("R1", component_ideal)];
     layer_to_components := [(Some "1", [component_ideal])];
     layer_value_to_components := [((Some "1", "100"), [component_ideal])];
     components := [component_ideal];
     dimension_layer_number := PyStr "20";
     top_layer := "1"; bottom_layer := "16";
     xmin := 0%R; xmax := 100%R; ymin := 0%R; ymax := 50%R;
     width := 100%R; height := 50%R |}.

(** [rotate_coords] on real numbers. *)
Definition rotate_coords_ideal : R * R -> option R -> R * R :=
  rotate_coords IZR Rplus Rminus Rmult Rdiv cos sin PI.

(** Two pad definitions that differ by a mirror marker in [rot]. *)
Definition smd_r90 : node :=
  Element "smd" [("name", "1"); ("x", "0"); ("y", "0"); ("dx", "1"); ("dy", "1");
                 ("layer", "1"); ("rot", "R90")] [].

Definition smd_mr90 : node :=
  Element "smd" [("name", "1"); ("x", "0"); ("y", "0"); ("dx", "1"); ("dy", "1");
                 ("layer", "1"); ("rot", "MR90")] [].

Definition not_nan (v : dfloat) : Prop := v <> DNan.

(** ** Notions used to state further properties *)

(** The keys of [l], each once, in the order they first occur. *)
Definition first_occurrences {K : Type} (eqb : K -> K -> bool) (l : list K) : list K :=
  fold_left (fun acc k => if existsb (eqb k) acc then acc else (acc ++ [k])%list) l [].

(** The index that files [cs] under [key]: one entry for each key that
    occurs, in the order the keys first occur, with the components of that
    key in the order of [cs]. *)
Definition index_of {K A : Type} (eqb : K -> K -> bool) (key : A -> K)
    (cs : list A) : dict K (list A) :=
  map (fun k => (k, filed eqb key k cs)) (first_occurrences eqb (map key cs)).

(** Whether the package of the element has surface-mount pads. *)
Definition has_pads (root c : node) : bool :=
  match package_pads root c with
  | Some (_ :: _) => true
  | _ => false
  end.

(** The line printed for an element that is skipped. *)
Definition skip_line (c : node) : string :=
  match get c "package", get c "name" with
  | Some package_name, Some compname => skip_message package_name compname
  | _, _ => ""
  end.

(** The canvas calls that end a page, and those that set the page size. *)
Definition is_show_page {F : Type} (op : canvas_op F) : bool :=
  match op with ShowPage => true | _ => false end.

Definition is_set_page_size {F : Type} (op : canvas_op F) : bool :=
  match op with SetPageSize _ _ => true | _ => false end.

Definition is_draw_path {F : Type} (op : canvas_op F) : bool :=
  match op with DrawPath _ _ _ => true | _ => false end.

(** On the layer, with the value, with the prefix. *)
Definition on_layer {F : Type} (layer : string) (c : Component F) : bool :=
  layer_eqb (comp_layer c) (Some layer).

Definition on_layer_value {F : Type} (layer val : string) (c : Component F) : bool :=
  on_layer layer c && String.eqb (comp_value c) val.

Definition on_layer_other_value {F : Type} (layer val : string) (c : Component F)
    : bool :=
  on_layer layer c && negb (String.eqb (comp_value c) val).

(** [a <= b] on names. *)
Definition name_le (a b : string) : Prop := String.leb a b = true.

(** The pad [op] holds what the pad definition [p] gives. *)
Definition pad_read {F : Type} (float_of_str : string -> option F) (p : node)
    (op : Pad F) : Prop :=
  getfloat float_of_str p "x" = Ok (pad_x op) /\
  getfloat float_of_str p "y" = Ok (pad_y op) /\
  getfloat float_of_str p "dx" = Ok (pad_width op) /\
  getfloat float_of_str p "dy" = Ok (pad_height op) /\
  pad_rot float_of_str p = Ok (pad_angle op).

(** Whether a call returned, that is, raised nothing. *)
Definition is_ok {A : Type} (r : result A) : bool :=
  match r with Ok _ => true | Raise _ => false end.

(** A wire whose four coordinates can be read. *)
Definition wire_valid {F : Type} (float_of_str : string -> option F) (w : node)
    : bool :=
  forallb (fun name => is_ok (getfloat float_of_str w name)) ["x1"; "x2"; "y1"; "y2"].

(** A pad definition with a layer, a position and a size that can be read,
    and with no [rot] attribute or one that can be read. *)
Definition pad_valid {F : Type} (float_of_str : string -> option F) (p : node)
    : bool :=
  match get p "layer" with Some _ => true | None => false end
  && forallb (fun name => is_ok (getfloat float_of_str p name)) ["x"; "y"; "dx"; "dy"]
  && is_ok (pad_rot float_of_str p).

(** An element with a name that is not empty, a value and a package that is
    defined and, when that package has surface-mount pads, with a position
    and a rotation that can be read and valid pad definitions. *)
Definition element_valid {F : Type} (float_of_str : string -> option F)
    (root c : node) : bool :=
  match get c "name", get c "value", get c "package" with
  | Some compname, Some _, Some package_name =>
      negb (String.eqb compname "")
      && match xpath_package root package_name with
         | Ok (package0 :: _) =>
             match xpath_child package0 "smd" with
             | [] => true
             | ppads =>
                 is_ok (getfloat float_of_str c "x")
                 && is_ok (getfloat float_of_str c "y")
                 && is_ok (element_rot float_of_str c)
                 && forallb (pad_valid float_of_str) ppads
             end
         | _ => false
         end
  | _, _, _ => false
  end.

(** * Properties *)

(** ** Strings and character classes *)

Lemma or_else_none {A : Type} (a : option A) : or_else a None = a.
Proof. destruct a; reflexivity. Qed.

Lemma takew_dropw p s : takew p s ++ dropw p s = s.
Proof.
  induction s as [|c s IH]; simpl; [reflexivity|].
  destruct (p c); simpl; [now rewrite IH | reflexivity].
Qed.

Lemma all_in_takew p s : all_in p (takew p s) = true.
Proof.
  induction s as [|c s IH]; simpl; [reflexivity|].
  destruct (p c) eqn:E; simpl; [now rewrite E | reflexivity].
Qed.

Lemma substring_takew p s : substring 0 (String.length (takew p s)) s = takew p s.
Proof.
  induction s as [|c s IH]; simpl; [reflexivity|].
  destruct (p c); simpl; [now rewrite IH | reflexivity].
Qed.

Lemma takew_app p a b :
  all_in p a = true -> starts_in p b = false -> takew p (a ++ b) = a.
Proof.
  induction a as [|c a IH]; simpl; intros Ha Hb.
  - destruct b as [|d b]; simpl in *; [reflexivity | now rewrite Hb].
  - apply andb_prop in Ha as [Hc Ha]. now rewrite Hc, IH.
Qed.

Lemma dropw_app p a b :
  all_in p a = true -> starts_in p b = false -> dropw p (a ++ b) = b.
Proof.
  induction a as [|c a IH]; simpl; intros Ha Hb.
  - destruct b as [|d b]; simpl in *; [reflexivity | now rewrite Hb].
  - apply andb_prop in Ha as [Hc Ha]. now rewrite Hc, IH.
Qed.

Lemma is_empty_false s : is_empty s = false <-> s <> "".
Proof. destruct s; simpl; split; congruence. Qed.

(** The three classes are pairwise disjoint, the newline is a blank, and
    neither the dot nor the newline is a digit. *)
Lemma digit_class c :
  is_digit c = true ->
  is_alpha c = false /\ is_space c = false /\
  Ascii.eqb c "." = false /\ Ascii.eqb c newline = false.
Proof.
  destruct c as [[] [] [] [] [] [] [] []]; vm_compute; intros H;
    repeat split; congruence.
Qed.

Lemma alpha_class c : is_alpha c = true -> is_space c = false.
Proof. destruct c as [[] [] [] [] [] [] [] []]; vm_compute; congruence. Qed.

Lemma newline_class c : Ascii.eqb c newline = true -> is_space c = true.
Proof. destruct c as [[] [] [] [] [] [] [] []]; vm_compute; congruence. Qed.

(** ** The matcher on a class under [*] and [+] *)

Arguments rx : simpl never.

Lemma rx_seq r1 r2 pos s g k :
  rx (r1 >> r2) pos s g k = rx r1 pos s g (fun pos' s' g' => rx r2 pos' s' g' k).
Proof. reflexivity. Qed.

Lemma rx_star r pos s g k :
  rx (Star r) pos s g k = star_loop (rx r) (String.length s) pos s g k.
Proof. reflexivity. Qed.

Lemma rx_plus r pos s g k :
  rx (Plus r) pos s g k
  = rx r pos s g (fun pos' s' g' => star_loop (rx r) (String.length s') pos' s' g' k).
Proof. reflexivity. Qed.

Lemma rx_class p pos s g (k : cont) :
  rx (Class p) pos s g k
  = match s with
    | String a s' => if p a then k (S pos) s' g else None
    | EmptyString => None
    end.
Proof. reflexivity. Qed.

Lemma rx_group n r pos s g k :
  rx (Group n r) pos s g k
  = rx r pos s g (fun pos' s' g' =>
      k pos' s' (set_capture n (substring 0 (pos' - pos) s) g')).
Proof. reflexivity. Qed.

Lemma rx_eol pos s g (k : cont) :
  rx Eol pos s g k
  = match s with
    | EmptyString => k pos s g
    | String c EmptyString => if Ascii.eqb c newline then k pos s g else None
    | _ => None
    end.
Proof. reflexivity. Qed.

Lemma rx_lit c pos s g (k : cont) :
  rx (Lit c) pos s g k
  = match s with
    | String a s' => if Ascii.eqb a c then k (S pos) s' g else None
    | EmptyString => None
    end.
Proof. reflexivity. Qed.

Lemma rx_opt r pos s g k :
  rx (Opt r) pos s g k = or_else (rx r pos s g k) (k pos s g).
Proof. reflexivity. Qed.

Lemma rx_bol pos s g (k : cont) :
  rx Bol pos s g k = if Nat.eqb pos 0 then k pos s g else None.
Proof. reflexivity. Qed.

(** When the continuation fails wherever a character of the class comes
    next, the greedy star takes the whole run and never gives any back. *)
Lemma star_class p g (k : cont) :
  (forall pos s, starts_in p s = true -> k pos s g = None) ->
  forall fuel s pos, String.length s <= fuel ->
  star_loop (rx (Class p)) fuel pos s g k
  = k (pos + String.length (takew p s)) (dropw p s) g.
Proof.
  intros Hk fuel. induction fuel as [|fuel IH]; intros s pos Hlen.
  - destruct s; simpl in *; [|lia]. now rewrite Nat.add_0_r.
  - simpl. rewrite rx_class. destruct s as [|a s]; simpl.
    + now rewrite Nat.add_0_r.
    + destruct (p a) eqn:Ea.
      * assert (Hlt : Nat.ltb pos (S pos) = true) by (apply Nat.ltb_lt; lia).
        rewrite Hlt, IH by (simpl in Hlen; lia).
        rewrite (Hk pos (String a s)) by exact Ea.
        rewrite or_else_none. simpl. f_equal. lia.
      * simpl. now rewrite Nat.add_0_r.
Qed.

Lemma plus_class p g (k : cont) :
  (forall pos s, starts_in p s = true -> k pos s g = None) ->
  forall s pos,
  rx (Plus (Class p)) pos s g k
  = if is_empty (takew p s) then None
    else k (pos + String.length (takew p s)) (dropw p s) g.
Proof.
  intros Hk s pos. rewrite rx_plus, rx_class.
  destruct s as [|a s]; simpl; [reflexivity|].
  destruct (p a) eqn:Ea; simpl; [|reflexivity].
  rewrite star_class by (auto; lia). f_equal. lia.
Qed.

(** Blanks up to the end: [\s*$] with nothing after it. *)
Lemma star_space_eol g fuel s pos :
  String.length s <= fuel ->
  star_loop (rx (Class is_space)) fuel pos s g
    (fun pos' s' g' => rx Eol pos' s' g' (fun _ _ g'' => Some g''))
  = if is_empty (dropw is_space s) then Some g else None.
Proof.
  revert s pos. induction fuel as [|fuel IH]; intros s pos Hlen.
  - destruct s; simpl in *; [reflexivity | lia].
  - simpl. rewrite rx_class. destruct s as [|a s]; simpl; [reflexivity|].
    destruct (is_space a) eqn:Ea.
    + assert (Hlt : Nat.ltb pos (S pos) = true) by (apply Nat.ltb_lt; lia).
      rewrite Hlt, IH by (simpl in Hlen; lia).
      destruct (is_empty (dropw is_space s)) eqn:Ed; simpl; [reflexivity|].
      rewrite rx_eol.
      destruct s as [|b s]; simpl in *; [discriminate | reflexivity].
    + simpl. rewrite rx_eol. destruct s as [|b s]; [|reflexivity].
      destruct (Ascii.eqb a newline) eqn:En; [|reflexivity].
      apply newline_class in En. congruence.
Qed.

(** ** [prefix_re] *)

Lemma starts_dropw_id p s : starts_in p s = false -> dropw p s = s.
Proof. destruct s as [|c s]; simpl; [reflexivity|]. now intros ->. Qed.

Lemma starts_takew_nil p s : starts_in p s = false -> takew p s = "".
Proof. destruct s as [|c s]; simpl; [reflexivity|]. now intros ->. Qed.

Lemma starts_nonempty p s : starts_in p s = true -> is_empty s = false.
Proof. destruct s; simpl; [discriminate | reflexivity]. Qed.

Lemma digit_not_space s : starts_in is_digit s = true -> starts_in is_space s = false.
Proof. destruct s as [|c s]; simpl; [discriminate|]. apply digit_class. Qed.

Lemma digit_not_alpha s : starts_in is_digit s = true -> starts_in is_alpha s = false.
Proof. destruct s as [|c s]; simpl; [discriminate|]. apply digit_class. Qed.

Lemma alpha_not_space s : starts_in is_alpha s = true -> starts_in is_space s = false.
Proof. destruct s as [|c s]; simpl; [discriminate|]. apply alpha_class. Qed.

Lemma alpha_not_digit s : starts_in is_alpha s = true -> starts_in is_digit s = false.
Proof.
  destruct s as [|c s]; simpl; [discriminate|]. intros Ha.
  destruct (is_digit c) eqn:Ed; [|reflexivity].
  apply digit_class in Ed. destruct Ed; congruence.
Qed.

Lemma space_not_alpha s : starts_in is_space s = true -> starts_in is_alpha s = false.
Proof.
  destruct s as [|c s]; simpl; [discriminate|]. intros Ha.
  destruct (is_alpha c) eqn:Ed; [|reflexivity].
  apply alpha_class in Ed. congruence.
Qed.

Lemma space_not_digit s : starts_in is_space s = true -> starts_in is_digit s = false.
Proof.
  destruct s as [|c s]; simpl; [discriminate|]. intros Ha.
  destruct (is_digit c) eqn:Ed; [|reflexivity].
  apply digit_class in Ed. destruct Ed as (_ & ? & _); congruence.
Qed.

Lemma prefix_tail1 pos s g :
  rx (Star (Class is_space) >> Eol) pos s g k_end
  = if is_empty (dropw is_space s) then Some g else None.
Proof. rewrite rx_seq, rx_star. now apply star_space_eol. Qed.

Lemma prefix_tail2 pos s g :
  rx (Plus (Class is_digit) >> Star (Class is_space) >> Eol) pos s g k_end
  = if is_empty (takew is_digit s) then None
    else if is_empty (dropw is_space (dropw is_digit s)) then Some g else None.
Proof.
  rewrite rx_seq, plus_class.
  - now rewrite prefix_tail1.
  - intros pos' s' Hs. rewrite prefix_tail1.
    rewrite starts_dropw_id by now apply digit_not_space.
    now rewrite (starts_nonempty _ _ Hs).
Qed.

Lemma prefix_tail3 pos s g :
  rx (Star (Class is_space) >> Plus (Class is_digit)
        >> Star (Class is_space) >> Eol) pos s g k_end
  = let s2 := dropw is_space s in
    if is_empty (takew is_digit s2) then None
    else if is_empty (dropw is_space (dropw is_digit s2)) then Some g else None.
Proof.
  rewrite rx_seq, rx_star, star_class; [|
    intros pos' s' Hs; rewrite prefix_tail2;
    now rewrite starts_takew_nil by now apply space_not_digit | lia].
  now rewrite prefix_tail2.
Qed.

Lemma prefix_tail4 pos s g :
  rx (Group 1 (Plus (Class is_alpha)) >> Star (Class is_space)
        >> Plus (Class is_digit) >> Star (Class is_space) >> Eol) pos s g k_end
  = let letters := takew is_alpha s in
    let s2 := dropw is_space (dropw is_alpha s) in
    if is_empty letters then None
    else if is_empty (takew is_digit s2) then None
    else if is_empty (dropw is_space (dropw is_digit s2))
         then Some (set_capture 1 letters g) else None.
Proof.
  rewrite rx_seq, rx_group, plus_class.
  - cbv zeta. destruct (is_empty (takew is_alpha s)); [reflexivity|].
    rewrite prefix_tail3. cbv zeta.
    now rewrite Nat.add_comm, Nat.add_sub, substring_takew.
  - intros pos' s' Hs. rewrite prefix_tail3. cbv zeta.
    rewrite starts_dropw_id by now apply alpha_not_space.
    now rewrite starts_takew_nil by now apply alpha_not_digit.
Qed.

Lemma prefix_re_scan s :
  re_match prefix_re s
  = option_map (fun l => set_capture 1 l no_captures) (prefix_scan s).
Proof.
  unfold re_match, prefix_re, prefix_scan. fold k_end.
  rewrite rx_seq, rx_star, star_class; [|
    intros pos' s' Hs; rewrite prefix_tail4; cbv zeta;
    now rewrite starts_takew_nil by now apply space_not_alpha | lia].
  rewrite prefix_tail4. cbv zeta.
  destruct (is_empty (takew is_alpha (dropw is_space s))); [reflexivity|].
  destruct (is_empty (takew is_digit _)); [reflexivity|].
  destruct (is_empty (dropw is_space _)); reflexivity.
Qed.

Lemma name_prefix_scan s : name_prefix s = prefix_scan s.
Proof.
  unfold name_prefix. rewrite prefix_re_scan.
  destruct (prefix_scan s); reflexivity.
Qed.

Lemma takew_app_all p a b : all_in p a = true -> takew p (a ++ b) = a ++ takew p b.
Proof.
  induction a as [|c a IH]; simpl; intros Ha; [reflexivity|].
  apply andb_prop in Ha as [Hc Ha]. now rewrite Hc, IH.
Qed.

Lemma dropw_app_all p a b : all_in p a = true -> dropw p (a ++ b) = dropw p b.
Proof.
  induction a as [|c a IH]; simpl; intros Ha; [reflexivity|].
  apply andb_prop in Ha as [Hc Ha]. now rewrite Hc, IH.
Qed.

Lemma dropw_empty_all p s : is_empty (dropw p s) = true -> all_in p s = true.
Proof.
  induction s as [|c s IH]; simpl; [reflexivity|].
  destruct (p c); simpl; [exact IH | discriminate].
Qed.

Lemma all_in_dropw p s : all_in p s = true -> dropw p s = "".
Proof.
  induction s as [|c s IH]; simpl; [reflexivity|].
  intros H. apply andb_prop in H as [Hc H]. now rewrite Hc, IH.
Qed.

Lemma app_nil_r_str (s : string) : s ++ "" = s.
Proof. induction s; simpl; congruence. Qed.

Lemma str_app_assoc (a b c : string) : (a ++ b) ++ c = a ++ b ++ c.
Proof. induction a; simpl; congruence. Qed.

Lemma all_in_starts p s : all_in p s = true -> s <> "" -> starts_in p s = true.
Proof.
  destruct s as [|c s]; simpl; [congruence|]. intros H _.
  now apply andb_prop in H.
Qed.

Lemma starts_in_app p a b : a <> "" -> starts_in p (a ++ b) = starts_in p a.
Proof. destruct a; simpl; congruence. Qed.

(** A run of blanks, then something that starts with a digit: no letter
    comes first. *)
Lemma blanks_digits_not_alpha blanks digits rest :
  all_in is_space blanks = true -> all_in is_digit digits = true -> digits <> "" ->
  starts_in is_alpha (blanks ++ digits ++ rest) = false.
Proof.
  intros Hb Hd Hn. destruct blanks as [|c blanks].
  - simpl. rewrite starts_in_app by assumption.
    apply digit_not_alpha, all_in_starts; assumption.
  - apply space_not_alpha. simpl in *. now apply andb_prop in Hb.
Qed.

Lemma prefix_scan_shape name letters :
  prefix_scan name = Some letters <-> prefix_shape_padded name letters.
Proof.
  unfold prefix_scan, prefix_shape_padded. split.
  - set (s1 := dropw is_space name).
    set (s2 := dropw is_space (dropw is_alpha s1)).
    destruct (is_empty (takew is_alpha s1)) eqn:E1; [discriminate|].
    destruct (is_empty (takew is_digit s2)) eqn:E2; [discriminate|].
    destruct (is_empty (dropw is_space (dropw is_digit s2))) eqn:E3; [|discriminate].
    intros H. injection H as <-.
    exists (takew is_space name), (takew is_space (dropw is_alpha s1)),
      (takew is_digit s2), (dropw is_digit s2).
    repeat split; try apply all_in_takew; try (now apply is_empty_false).
    + unfold s2, s1. now rewrite !takew_dropw.
    + now apply dropw_empty_all.
  - intros (lead & blanks & digits & trail & -> & Hl & Hn & Ha & Hb & Hdn & Hd & Ht).
    assert (Hs1 : dropw is_space (lead ++ letters ++ blanks ++ digits ++ trail)
                  = letters ++ blanks ++ digits ++ trail).
    { rewrite dropw_app_all by assumption. apply starts_dropw_id.
      rewrite starts_in_app by assumption.
      apply alpha_not_space, all_in_starts; assumption. }
    rewrite Hs1.
    rewrite takew_app_all, dropw_app_all by assumption.
    rewrite (starts_takew_nil is_alpha (blanks ++ digits ++ trail))
      by now apply blanks_digits_not_alpha.
    rewrite app_nil_r_str.
    rewrite (starts_dropw_id is_alpha (blanks ++ digits ++ trail))
      by now apply blanks_digits_not_alpha.
    rewrite dropw_app_all by assumption.
    assert (Hs2 : dropw is_space (digits ++ trail) = digits ++ trail).
    { apply starts_dropw_id. rewrite starts_in_app by assumption.
      apply digit_not_space, all_in_starts; assumption. }
    rewrite Hs2.
    assert (Ht' : starts_in is_digit trail = false).
    { destruct trail as [|c trail]; [reflexivity|].
      apply space_not_digit. simpl in *. now apply andb_prop in Ht. }
    rewrite takew_app, dropw_app by assumption.
    rewrite all_in_dropw by assumption.
    apply is_empty_false in Hn, Hdn. now rewrite Hn, Hdn.
Qed.


Lemma last_char_app a b : b <> "" -> last_char (a ++ b) = last_char b.
Proof.
  intros Hb. induction a as [|c a IH]; simpl; [reflexivity|].
  rewrite IH. destruct (a ++ b) eqn:E; [|reflexivity].
  destruct a; simpl in E; [congruence | discriminate].
Qed.

Lemma last_char_all_in p s c : all_in p s = true -> last_char s = Some c -> p c = true.
Proof.
  induction s as [|a s IH]; simpl; [discriminate|].
  intros H. apply andb_prop in H as [Ha H].
  destruct s; [intros [= <-]; exact Ha | now apply IH].
Qed.


(** ** [angle_re] *)

Lemma angle_tail1 pos s g :
  rx Eol pos s g k_end = if at_end s then Some g else None.
Proof.
  rewrite rx_eol. destruct s as [|c [|d s]]; simpl; try reflexivity;
    destruct (Ascii.eqb c newline); reflexivity.
Qed.

Lemma digit_not_at_end s : starts_in is_digit s = true -> at_end s = false.
Proof.
  destruct s as [|c [|d s]]; simpl; try reflexivity; [discriminate|].
  intros H. now apply digit_class in H.
Qed.

Lemma digit_after_fraction s : starts_in is_digit s = true -> after_fraction s = s.
Proof.
  destruct s as [|c s]; simpl; [reflexivity|]. intros H.
  apply digit_class in H as (_ & _ & -> & _). reflexivity.
Qed.

Lemma angle_tail2 pos s g :
  rx (Opt (Lit "." >> Plus (Class is_digit)) >> Eol) pos s g k_end
  = if at_end (after_fraction s) then Some g else None.
Proof.
  rewrite rx_seq, rx_opt, rx_seq, rx_lit, angle_tail1.
  destruct s as [|c f]; [reflexivity|].
  unfold after_fraction.
  destruct (Ascii.eqb c ".") eqn:Ec; [|reflexivity].
  rewrite plus_class
    by (intros pos' s' Hs; rewrite angle_tail1; now rewrite digit_not_at_end).
  destruct (is_empty (takew is_digit f)) eqn:Ef; simpl; [reflexivity|].
  rewrite angle_tail1.
  assert (Hno : at_end (String c f) = false).
  { apply Ascii.eqb_eq in Ec. subst c.
    destruct f; [discriminate Ef | reflexivity]. }
  cbn [at_end] in Hno. rewrite Hno, or_else_none. reflexivity.
Qed.

Lemma angle_tail3 pos s g :
  rx (Group 2 (Plus (Class is_digit))
        >> Opt (Lit "." >> Plus (Class is_digit)) >> Eol) pos s g k_end
  = if is_empty (takew is_digit s) then None
    else if at_end (after_fraction (dropw is_digit s))
         then Some (set_capture 2 (takew is_digit s) g) else None.
Proof.
  rewrite rx_seq, rx_group, plus_class.
  - destruct (is_empty (takew is_digit s)); [reflexivity|].
    rewrite angle_tail2.
    now rewrite Nat.add_comm, Nat.add_sub, substring_takew.
  - intros pos' s' Hs. rewrite angle_tail2, digit_after_fraction by assumption.
    now rewrite digit_not_at_end.
Qed.

Lemma angle_tail4 pos s g :
  rx (Lit "R" >> Group 2 (Plus (Class is_digit))
        >> Opt (Lit "." >> Plus (Class is_digit)) >> Eol) pos s g k_end
  = match s with
    | String c s2 =>
        if Ascii.eqb c "R" then
          if is_empty (takew is_digit s2) then None
          else if at_end (after_fraction (dropw is_digit s2))
               then Some (set_capture 2 (takew is_digit s2) g) else None
        else None
    | EmptyString => None
    end.
Proof.
  rewrite rx_seq, rx_lit. destruct s as [|c s2]; [reflexivity|].
  destruct (Ascii.eqb c "R"); [|reflexivity]. apply angle_tail3.
Qed.

Lemma substring_0_0 s : substring 0 0 s = "".
Proof. destruct s; reflexivity. Qed.

Lemma angle_re_scan rot :
  re_match angle_re rot = option_map angle_captures (angle_scan rot).
Proof.
  unfold re_match, angle_re. fold k_end.
  rewrite rx_seq, rx_bol. cbn [Nat.eqb].
  rewrite rx_seq, rx_group, rx_opt, rx_lit, !angle_tail4.
  rewrite Nat.sub_diag, substring_0_0.
  unfold angle_scan, angle_scan_body, angle_captures.
  destruct rot as [|c r]; [reflexivity|].
  destruct (Ascii.eqb c "M") eqn:Ec.
  - apply Ascii.eqb_eq in Ec. subst c. rewrite angle_tail4.
    cbn [Ascii.eqb Bool.eqb]. rewrite or_else_none.
    cbn [substring Nat.sub]. rewrite substring_0_0.
    destruct r as [|c s2]; [reflexivity|].
    destruct (Ascii.eqb c "R"); [|reflexivity].
    destruct (is_empty _); [reflexivity|].
    destruct (at_end _); reflexivity.
  - cbn [or_else]. destruct (Ascii.eqb c "R"); [|reflexivity].
    destruct (is_empty _); [reflexivity|].
    destruct (at_end _); reflexivity.
Qed.

Lemma at_end_cases s : at_end s = true <-> s = "" \/ s = String newline "".
Proof.
  destruct s as [|c [|d s]]; simpl; split; intros H; auto.
  - apply Ascii.eqb_eq in H. subst. now right.
  - destruct H as [H|H]; [discriminate|]. injection H as ->. reflexivity.
  - discriminate.
  - destruct H as [H|H]; discriminate.
Qed.

Lemma fraction_nl_no_digit frac nl :
  fraction_shape frac -> nl = "" \/ nl = String newline "" ->
  starts_in is_digit (frac ++ nl) = false.
Proof.
  intros [->|(fd & -> & _)] Hnl; [|reflexivity].
  destruct Hnl as [->| ->]; reflexivity.
Qed.

Lemma after_fraction_shape frac nl :
  fraction_shape frac -> nl = "" \/ nl = String newline "" ->
  after_fraction (frac ++ nl) = nl.
Proof.
  intros [->|(fd & -> & Hn & Hd)] Hnl.
  - destruct Hnl as [->| ->]; reflexivity.
  - assert (Hs : starts_in is_digit nl = false)
      by (destruct Hnl as [->| ->]; reflexivity).
    cbn [append after_fraction]. rewrite takew_app, dropw_app by assumption.
    apply is_empty_false in Hn. now rewrite Hn.
Qed.

Lemma after_fraction_inv t :
  at_end (after_fraction t) = true ->
  exists frac nl, t = frac ++ nl /\ fraction_shape frac /\
                  (nl = "" \/ nl = String newline "").
Proof.
  destruct t as [|c f]; [exists "", ""; repeat split; now left|].
  unfold after_fraction.
  destruct (Ascii.eqb c "." && negb (is_empty (takew is_digit f))) eqn:E.
  - apply andb_prop in E as [Ec Ef]. apply Ascii.eqb_eq in Ec. subst c.
    intros H. apply at_end_cases in H.
    exists (String "." (takew is_digit f)), (dropw is_digit f). repeat split.
    + cbn [append]. now rewrite takew_dropw.
    + right. exists (takew is_digit f). repeat split.
      * apply is_empty_false. now destruct (is_empty _).
      * apply all_in_takew.
    + exact H.
  - intros H. apply at_end_cases in H.
    exists "", (String c f). repeat split; [now left | exact H].
Qed.

Lemma scan_digits_shape s2 digits :
  (is_empty (takew is_digit s2) = false /\
   at_end (after_fraction (dropw is_digit s2)) = true /\
   takew is_digit s2 = digits) <->
  (exists frac nl,
     s2 = digits ++ frac ++ nl /\ digits <> "" /\ all_in is_digit digits = true /\
     fraction_shape frac /\ (nl = "" \/ nl = String newline "")).
Proof.
  split.
  - intros (Hn & He & <-). apply after_fraction_inv in He as (frac & nl & Ht & Hf & Hnl).
    exists frac, nl. repeat split; try assumption.
    + now rewrite <- Ht, takew_dropw.
    + now apply is_empty_false.
    + apply all_in_takew.
  - intros (frac & nl & -> & Hn & Hd & Hf & Hnl).
    rewrite takew_app, dropw_app by (auto using fraction_nl_no_digit).
    rewrite after_fraction_shape by assumption.
    repeat split; [now apply is_empty_false | now apply at_end_cases].
Qed.

Lemma angle_scan_body_shape s1 m mirror digits :
  angle_scan_body m s1 = Some (mirror, digits)
  <-> m = mirror /\ exists frac nl,
        s1 = String "R" (digits ++ frac ++ nl) /\ digits <> "" /\
        all_in is_digit digits = true /\ fraction_shape frac /\
        (nl = "" \/ nl = String newline "").
Proof.
  unfold angle_scan_body. destruct s1 as [|c s2].
  - split; [discriminate|]. intros (_ & frac & nl & H & _). discriminate.
  - destruct (Ascii.eqb c "R") eqn:Ec.
    + apply Ascii.eqb_eq in Ec. subst c. split.
      * intros H.
        destruct (is_empty (takew is_digit s2)) eqn:E1; [discriminate|].
        destruct (at_end _) eqn:E2; [|discriminate].
        injection H as -> E3. split; [reflexivity|].
        destruct (proj1 (scan_digits_shape s2 digits))
          as (frac & nl & -> & H); [auto|].
        now exists frac, nl.
      * intros (-> & frac & nl & H & H'). injection H as ->.
        destruct (proj2 (scan_digits_shape (digits ++ frac ++ nl) digits))
          as (E1 & E2 & E3); [now exists frac, nl|].
        now rewrite E1, E2, E3.
    + split; [discriminate|].
      intros (_ & frac & nl & H & _). injection H as -> _.
      discriminate Ec.
Qed.

Lemma angle_scan_shape rot mirror digits :
  angle_scan rot = Some (mirror, digits) <-> rot_shape_nl rot mirror digits.
Proof.
  unfold rot_shape_nl, angle_scan. destruct rot as [|c r].
  - split; [discriminate|].
    intros (frac & nl & H & _). destruct mirror; discriminate.
  - destruct (Ascii.eqb c "M") eqn:Ec.
    + apply Ascii.eqb_eq in Ec. subst c. rewrite angle_scan_body_shape. split.
      * intros (<- & frac & nl & -> & H). exists frac, nl. split; [reflexivity | exact H].
      * intros (frac & nl & H & H'). destruct mirror; [|discriminate].
        split; [reflexivity|]. exists frac, nl.
        injection H as ->. split; [reflexivity | exact H'].
    + rewrite angle_scan_body_shape. split.
      * intros (<- & frac & nl & -> & H). exists frac, nl. split; [reflexivity | exact H].
      * intros (frac & nl & H & H'). destruct mirror.
        -- injection H as -> _. discriminate Ec.
        -- split; [reflexivity|]. exists frac, nl. split; [exact H | exact H'].
Qed.

(** The mirror marker in front of an unmirrored descriptor changes the flag
    and leaves the digits. *)
Lemma angle_scan_add_marker r digits :
  angle_scan r = Some (false, digits) ->
  angle_scan (String "M" r) = Some (true, digits).
Proof.
  intros H. change (angle_scan (String "M" r)) with (angle_scan_body true r).
  unfold angle_scan in H. destruct r as [|c r']; [discriminate|].
  destruct (Ascii.eqb c "M").
  - apply angle_scan_body_shape in H as (H & _). discriminate.
  - apply angle_scan_body_shape in H as (_ & H).
    apply angle_scan_body_shape. now split.
Qed.

(** ** [float] on a string of digits, in the decimal model *)

Lemma digit_char c :
  is_digit c = true ->
  is_space c = false /\ to_lower c = c /\
  Ascii.eqb c "+" = false /\ Ascii.eqb c "-" = false /\
  Ascii.eqb c "_" = false /\ Ascii.eqb c "i" = false /\ Ascii.eqb c "n" = false.
Proof.
  destruct c as [[] [] [] [] [] [] [] []]; vm_compute; intros H;
    repeat split; congruence.
Qed.

Lemma rstrip_digits d : all_in is_digit d = true -> rstrip d = d.
Proof.
  induction d as [|c d IH]; simpl; [reflexivity|]. intros H.
  apply andb_prop in H as [Hc H]. rewrite IH by assumption.
  apply digit_char in Hc as (-> & _). now rewrite andb_false_r.
Qed.

Lemma strip_digits d : all_in is_digit d = true -> strip d = d.
Proof.
  intros H. unfold strip, lstrip.
  destruct d as [|c d]; [reflexivity|].
  rewrite starts_dropw_id; [now apply rstrip_digits|].
  simpl in *. apply andb_prop in H as [Hc _]. now apply digit_char in Hc.
Qed.

Lemma read_sign_digit c d : is_digit c = true -> read_sign (String c d) = (false, String c d).
Proof.
  destruct c as [[] [] [] [] [] [] [] []]; vm_compute; intros H;
    congruence.
Qed.

Lemma digitpart_step c c' d :
  is_digit c = true -> is_digit c' = true ->
  digitpart (String c (String c' d))
  = let (ds, r) := digitpart (String c' d) in (String c ds, r).
Proof.
  intros Hc Hc'. cbn [digitpart]. rewrite Hc, Hc'.
  destruct c' as [[] [] [] [] [] [] [] []]; try discriminate Hc'; reflexivity.
Qed.

Lemma digitpart_digits d : all_in is_digit d = true -> digitpart d = (d, "").
Proof.
  induction d as [|c d IH]; [reflexivity|]. intros H.
  cbn [all_in] in H. apply andb_prop in H as [Hc H].
  destruct d as [|c' d].
  - cbn [digitpart]. now rewrite Hc.
  - assert (Hc' : is_digit c' = true) by (cbn [all_in] in H; now apply andb_prop in H).
    rewrite digitpart_step, IH by assumption. reflexivity.
Qed.

Lemma dfloat_of_digits d :
  d <> "" -> all_in is_digit d = true ->
  dfloat_of_str d = Some (DFin (digits_to_Z d) 0).
Proof.
  intros Hn Hd. unfold dfloat_of_str. rewrite strip_digits by assumption.
  destruct d as [|c d]; [congruence|].
  assert (Hc : is_digit c = true) by (cbn [all_in] in Hd; now apply andb_prop in Hd).
  rewrite read_sign_digit by assumption.
  destruct (digit_char c Hc) as (_ & Hl & _ & _ & _ & Hi & Hnn).
  cbn [lower String.eqb]. rewrite Hl, Hi, Hnn. cbn [orb].
  unfold read_number. rewrite digitpart_digits by assumption.
  cbn [is_empty read_exponent String.length Z.of_nat].
  now rewrite app_nil_r_str.
Qed.

(** ** Reading attributes: [getfloat] and the rotation descriptor *)

Section ExtractorReads.
Variable F : Type.
Variable float_of_str : string -> option F.


Lemma element_rot_scan (c : node) (rot : string) :
  get c "rot" = Some rot ->
  element_rot float_of_str c
  = match angle_scan rot with
    | None => Raise ("Could not parse angle '" ++ rot ++ "'")
    | Some (mirror, digits) =>
        eangle <- pyfloat float_of_str digits ;; Ok (Some eangle, mirror)
    end.
Proof.
  intros Hrot. unfold element_rot. rewrite Hrot, angle_re_scan.
  destruct (angle_scan rot) as [[mirror digits]|]; [|reflexivity].
  cbn [option_map]. unfold float_group, group, angle_captures, set_capture.
  cbn [Nat.eqb fst snd]. destruct (pyfloat float_of_str digits); [|reflexivity].
  cbn [bind]. now destruct mirror.
Qed.

(** [float] accepts every string of digits. *)
Hypothesis float_digits :
  forall d, d <> "" -> all_in is_digit d = true -> float_of_str d <> None.

End ExtractorReads.

Lemma dfloat_digits d :
  d <> "" -> all_in is_digit d = true -> dfloat_of_str d <> None.
Proof. intros Hn Hd. now rewrite dfloat_of_digits. Qed.




(** ** Dicts *)

Section DictFacts.
Variables K V : Type.
Variable eqb : K -> K -> bool.
Hypothesis eqb_eq : forall a b, eqb a b = true <-> a = b.

Lemma eqb_refl_key k : eqb k k = true.
Proof. now apply eqb_eq. Qed.

Lemma dict_get_set (k k' : K) (v : V) (d : dict K V) :
  dict_get eqb k (dict_set eqb k' v d)
  = if eqb k' k then Some v else dict_get eqb k d.
Proof.
  induction d as [|[k0 v0] d IH]; simpl.
  - reflexivity.
  - destruct (eqb k0 k') eqn:E0; simpl.
    + apply eqb_eq in E0. subst k0.
      destruct (eqb k' k); reflexivity.
    + rewrite IH. destruct (eqb k0 k) eqn:E1; [|reflexivity].
      apply eqb_eq in E1. subst k0.
      destruct (eqb k' k) eqn:E2; [|reflexivity].
      apply eqb_eq in E2. subst k'. now rewrite eqb_refl_key in E0.
Qed.
End DictFacts.

Section GroupedFacts.
Variables K A : Type.
Variable eqb : K -> K -> bool.
Hypothesis eqb_eq : forall a b, eqb a b = true <-> a = b.
Variable key : A -> K.

Lemma filed_snoc k cs c :
  filed eqb key k (cs ++ [c])
  = (filed eqb key k cs ++ (if eqb (key c) k then [c] else []))%list.
Proof. unfold filed. rewrite filter_app. reflexivity. Qed.

Lemma grouped_nil : grouped eqb key [] [].
Proof. intros k. reflexivity. Qed.

(** Filing one more component keeps the index a grouping. *)
Lemma grouped_append d cs c :
  grouped eqb key d cs ->
  grouped eqb key (dict_append eqb (key c) c d) (cs ++ [c]).
Proof.
  intros Hg k. unfold dict_append. rewrite filed_snoc.
  pose proof (Hg (key c)) as Hc. pose proof (Hg k) as Hk.
  destruct (dict_get eqb (key c) d) as [l|] eqn:El;
    rewrite (dict_get_set _ eqb_eq); destruct (eqb (key c) k) eqn:E.
  - apply eqb_eq in E. subst k.
    destruct (filed eqb key (key c) cs); [discriminate|].
    injection Hc as ->. reflexivity.
  - rewrite Hk, app_nil_r. reflexivity.
  - apply eqb_eq in E. subst k.
    destruct (filed eqb key (key c) cs); [reflexivity | discriminate].
  - rewrite Hk, app_nil_r. reflexivity.
Qed.

Lemma grouped_member d cs c :
  grouped eqb key d cs -> In c cs ->
  dict_get eqb (key c) d = Some (filed eqb key (key c) cs).
Proof.
  intros Hg Hin. rewrite Hg.
  assert (Hf : In c (filed eqb key (key c) cs)).
  { apply filter_In. split; [assumption | now apply eqb_eq]. }
  destruct (filed eqb key (key c) cs); [destruct Hf | reflexivity].
Qed.
End GroupedFacts.

Lemma string_eqb_eq (a b : string) : String.eqb a b = true <-> a = b.
Proof. apply String.eqb_eq. Qed.

Lemma layer_eqb_eq (a b : option string) : layer_eqb a b = true <-> a = b.
Proof.
  destruct a as [a|], b as [b|]; simpl; split; try congruence.
  - intros H. apply String.eqb_eq in H. congruence.
  - intros [= ->]. apply String.eqb_refl.
Qed.

Lemma layer_value_eqb_eq (a b : option string * string) :
  layer_value_eqb a b = true <-> a = b.
Proof.
  destruct a as [la va], b as [lb vb]. unfold layer_value_eqb. simpl.
  rewrite andb_true_iff, layer_eqb_eq, String.eqb_eq. split.
  - now intros [-> ->].
  - now intros [= -> ->].
Qed.

(** ** Entries of a dict *)

Section DictEntries.
Variables K V : Type.
Variable eqb : K -> K -> bool.

Lemma dict_get_entry (k : K) (v : V) (d : dict K V) :
  dict_get eqb k d = Some v -> exists k', In (k', v) d.
Proof.
  induction d as [|[k0 v0] d IH]; simpl; [discriminate|].
  destruct (eqb k0 k).
  - intros [= ->]. exists k0. now left.
  - intros H. destruct (IH H) as (k' & Hin). exists k'. now right.
Qed.

Lemma dict_set_entry (k k1 : K) (v v1 : V) (d : dict K V) :
  In (k1, v1) (dict_set eqb k v d) -> In (k1, v1) d \/ v1 = v.
Proof.
  induction d as [|[k0 v0] d IH]; simpl.
  - intros [[= _ <-]|[]]. now right.
  - destruct (eqb k0 k); simpl.
    + intros [[= _ <-]|H]; [now right | left; now right].
    + intros [H|H]; [left; now left|].
      destruct (IH H) as [H'|H']; [left; now right | now right].
Qed.
End DictEntries.

(** The entries after filing [c]: an old entry, or a bucket that ends with
    [c] after the components of an old one, if any. *)
Lemma dict_append_entry {K A : Type} (eqb : K -> K -> bool) (k k1 : K) (c : A)
    (l1 : list A) (d : dict K (list A)) :
  In (k1, l1) (dict_append eqb k c d) ->
  In (k1, l1) d \/
  l1 = [c] \/ exists k0 l0, In (k0, l0) d /\ l1 = (l0 ++ [c])%list.
Proof.
  unfold dict_append. destruct (dict_get eqb k d) as [l|] eqn:E; intros H;
    apply dict_set_entry in H as [H| ->]; auto.
  right. right. apply dict_get_entry in E as (k0 & Hin). now exists k0, l.
Qed.

Lemma dict_append_incl {K A : Type} (eqb : K -> K -> bool) (k : K) (c : A)
    (d : dict K (list A)) (cs : list A) :
  (forall k1 l1, In (k1, l1) d -> incl l1 cs) ->
  forall k1 l1, In (k1, l1) (dict_append eqb k c d) -> incl l1 (cs ++ [c]).
Proof.
  intros Hd k1 l1 H. apply dict_append_entry in H as [H|[->|(k0 & l0 & H & ->)]].
  - apply incl_appl. now apply (Hd k1).
  - apply incl_appr, incl_refl.
  - apply incl_app; [apply incl_appl; now apply (Hd k0) | apply incl_appr, incl_refl].
Qed.

(** ** Counting by object *)

Lemma filter_none {A : Type} (f : A -> bool) (l : list A) :
  (forall x, In x l -> f x = false) -> filter f l = [].
Proof.
  induction l as [|a l IH]; simpl; intros H; [reflexivity|].
  rewrite (H a) by now left. apply IH. intros x Hx. apply H. now right.
Qed.

Lemma count_oid_filter_one {F : Type} (p : Component F -> bool)
    (cs : list (Component F)) (com : Component F) :
  NoDup (map (@oid F) cs) -> In com cs -> p com = true ->
  count_oid (oid com) (filter p cs) = 1.
Proof.
  unfold count_oid. induction cs as [|a cs IH]; intros Hnd Hin Hp; [destruct Hin|].
  cbn [map] in Hnd. apply NoDup_cons_iff in Hnd as [Ha Hnd].
  destruct Hin as [->|Hin].
  - cbn [filter]. rewrite Hp. cbn [filter]. rewrite Nat.eqb_refl. cbn [List.length].
    rewrite filter_none; [reflexivity|].
    intros x Hx. apply filter_In in Hx as [Hx _]. apply Nat.eqb_neq.
    intros E. apply Ha. rewrite <- E. now apply in_map.
  - assert (Hne : Nat.eqb (oid a) (oid com) = false).
    { apply Nat.eqb_neq. intros E. apply Ha. rewrite E. now apply in_map. }
    cbn [filter]. destruct (p a); cbn [filter]; rewrite ?Hne; now apply IH.
Qed.

Lemma seq_oids_nodup {F : Type} (cs : list (Component F)) :
  map (@oid F) cs = seq 0 (List.length cs) -> NoDup (map (@oid F) cs).
Proof. intros ->. apply seq_NoDup. Qed.

(** ** The extractor *)

Lemma bind_ok {A B : Type} (m : result A) (k : A -> result B) (y : B) :
  bind m k = Ok y -> exists x, m = Ok x /\ k x = Ok y.
Proof. destruct m as [x|]; simpl; [now exists x | discriminate]. Qed.

(** A property kept by every round that ends well holds after the loop. *)
Lemma foldM_invariant {A S : Type} (step : S -> A -> result S) (P : S -> Prop) xs :
  (forall st x st', In x xs -> P st -> step st x = Ok st' -> P st') ->
  forall st st', P st -> foldM step xs st = Ok st' -> P st'.
Proof.
  induction xs as [|x xs IH]; intros Hstep st st' HP H; simpl in H.
  - now injection H as <-.
  - apply bind_ok in H as (st1 & H1 & H2).
    apply (IH (fun st x st' Hin => Hstep st x st' (or_intror Hin)) st1);
      [|assumption].
    apply (Hstep st x); [now left | assumption | assumption].
Qed.

Section ExtractorProperties.
Variable F : Type.
Variable float_of_str : string -> option F.
Variable flt : F -> F -> bool.
Variable fsub : F -> F -> F.

Local Abbreviation getfloat := (getfloat float_of_str).
Local Abbreviation element_rot := (element_rot float_of_str).
Local Abbreviation pad_step := (pad_step float_of_str).
Local Abbreviation read_element := (read_element float_of_str).
Local Abbreviation element_step := (element_step float_of_str).
Local Abbreviation building_ok := (building_ok float_of_str).
Local Abbreviation get_board_info_out := (get_board_info_out float_of_str flt fsub).
Local Abbreviation get_board_info := (get_board_info float_of_str flt fsub).

(** *** One element *)

Lemma read_element_inv root top bottom n c r :
  read_element root top bottom n c = Ok r ->
  exists compname compvalue package_name package0 prest,
    get c "name" = Some compname /\ compname <> "" /\
    get c "value" = Some compvalue /\
    get c "package" = Some package_name /\
    xpath_package root package_name = Ok (package0 :: prest) /\
    ((xpath_child package0 "smd" = [] /\
      r = inr (skip_message package_name compname)) \/
     (exists p0 ps compx compy eangle mirrored ourpads complayer,
        xpath_child package0 "smd" = p0 :: ps /\
        getfloat c "x" = Ok compx /\ getfloat c "y" = Ok compy /\
        element_rot c = Ok (eangle, mirrored) /\
        foldM (pad_step mirrored top bottom) (p0 :: ps) ([], None)
          = Ok (ourpads, complayer) /\
        r = inl {| oid := n; comp_x := compx; comp_y := compy;
                   comp_name := compname;
                   comp_prefix := name_prefix compname;
                   comp_value := compvalue; comp_pads := ourpads;
                   comp_angle := eangle; comp_layer := complayer |})).
Proof.
  unfold read_element. intros H.
  destruct (get c "name") as [compname|]; [|discriminate].
  destruct (String.eqb compname "") eqn:En; [discriminate|].
  destruct (get c "value") as [compvalue|]; [|discriminate].
  destruct (get c "package") as [package_name|]; [|discriminate].
  apply bind_ok in H as (package & Hp & H).
  destruct package as [|package0 prest]; [discriminate|].
  exists compname, compvalue, package_name, package0, prest.
  repeat (split; [first [reflexivity | assumption
                        | now apply String.eqb_neq] |]).
  destruct (xpath_child package0 "smd") as [|p0 ps] eqn:Hs.
  - left. split; [reflexivity | now injection H as <-].
  - right.
    apply bind_ok in H as (compx & Hx & H).
    apply bind_ok in H as (compy & Hy & H).
    apply bind_ok in H as ([eangle mirrored] & Hr & H).
    apply bind_ok in H as ([ourpads complayer] & Hf & H).
    injection H as <-.
    exists p0, ps, compx, compy, eangle, mirrored, ourpads, complayer.
    repeat split; assumption.
Qed.

(** *** The pads and the resolved layer *)

Lemma pad_step_inv mirrored top bottom ourpads complayer p st' :
  pad_step mirrored top bottom (ourpads, complayer) p = Ok st' ->
  exists l op,
    get p "layer" = Some l /\
    st' = ((ourpads ++ [op])%list,
           match complayer with
           | None => Some (resolve_layer mirrored top bottom l)
           | Some _ => complayer
           end).
Proof.
  unfold pad_step. cbn beta iota.
  destruct (get p "layer") as [l|]; [|discriminate]. intros H.
  apply bind_ok in H as (x & _ & H). apply bind_ok in H as (y & _ & H).
  apply bind_ok in H as (a & _ & H). apply bind_ok in H as (dx & _ & H).
  apply bind_ok in H as (dy & _ & H). injection H as <-.
  now exists l, {| pad_x := x; pad_y := y; pad_width := dx; pad_height := dy;
                   pad_angle := a |}.
Qed.

(** Once the layer is set, the later pads leave it alone. *)
Lemma pads_keep_layer mirrored top bottom ps ourpads l ourpads' complayer :
  foldM (pad_step mirrored top bottom) ps (ourpads, Some l)
    = Ok (ourpads', complayer) ->
  complayer = Some l.
Proof.
  revert ourpads. induction ps as [|p ps IH]; intros ourpads H; cbn [foldM] in H.
  - now injection H as _ <-.
  - apply bind_ok in H as (st1 & H1 & H2).
    apply pad_step_inv in H1 as (l1 & op & _ & ->). now apply IH in H2.
Qed.

(** The first pad sets the layer. *)
Lemma pads_first_layer mirrored top bottom p0 ps ourpads complayer :
  foldM (pad_step mirrored top bottom) (p0 :: ps) ([], None)
    = Ok (ourpads, complayer) ->
  exists l, get p0 "layer" = Some l /\
            complayer = Some (resolve_layer mirrored top bottom l).
Proof.
  intros H. cbn [foldM] in H. apply bind_ok in H as (st1 & H1 & H2).
  apply pad_step_inv in H1 as (l & op & Hl & ->).
  apply pads_keep_layer in H2. now exists l.
Qed.

(** Every round adds one pad: the package's pads and the component's are
    as many. *)
Lemma pads_count mirrored top bottom ps ourpads complayer ourpads' complayer' :
  foldM (pad_step mirrored top bottom) ps (ourpads, complayer)
    = Ok (ourpads', complayer') ->
  List.length ourpads' = List.length ourpads + List.length ps.
Proof.
  revert ourpads complayer. induction ps as [|p ps IH];
    intros ourpads complayer H; cbn [foldM] in H.
  - injection H as <- _. simpl. lia.
  - apply bind_ok in H as (st1 & H1 & H2).
    apply pad_step_inv in H1 as (l1 & op & _ & ->).
    apply IH in H2. rewrite H2, length_app. simpl. lia.
Qed.

(** The pads read, and the error if any, depend neither on the mirrored
    flag nor on the layer found so far. *)
Lemma pads_ignore_mirror top bottom m1 m2 ps ourpads l1 l2 :
  result_map fst (foldM (pad_step m1 top bottom) ps (ourpads, l1))
  = result_map fst (foldM (pad_step m2 top bottom) ps (ourpads, l2)).
Proof.
  revert ourpads l1 l2. induction ps as [|p ps IH]; intros ourpads l1 l2;
    [reflexivity|].
  cbn [foldM]. unfold pad_step at 1 3. cbn beta iota.
  destruct (get p "layer") as [l|]; [|reflexivity].
  destruct (getfloat p "x"); [|reflexivity].
  destruct (getfloat p "y"); [|reflexivity].
  destruct (pad_rot float_of_str p); [|reflexivity].
  destruct (getfloat p "dx"); [|reflexivity].
  destruct (getfloat p "dy"); [|reflexivity].
  cbn [bind]. apply IH.
Qed.

Lemma getfloat_same c1 c2 name :
  get c2 name = get c1 name -> getfloat c2 name = getfloat c1 name.
Proof. unfold getfloat. now intros ->. Qed.

Lemma element_rot_add_marker c1 c2 r eangle :
  get c1 "rot" = Some r -> get c2 "rot" = Some (String "M" r) ->
  element_rot c1 = Ok (eangle, false) ->
  element_rot c2 = Ok (eangle, true).
Proof.
  intros H1 H2. rewrite (element_rot_scan _ _ H1), (element_rot_scan _ _ H2).
  destruct (angle_scan r) as [[mirror digits]|] eqn:E; [|discriminate].
  intros H. apply bind_ok in H as (v & Hv & H). injection H as <- ->.
  rewrite (angle_scan_add_marker _ E), Hv. reflexivity.
Qed.

(** C4: a component's layer is the nominal layer of the first pad of its
    package, with top and bottom exchanged when the element is mirrored;
    and an element that differs from an unmirrored one by the mirror marker
    alone gives a component with the same pads, position, angle, name,
    prefix and value. *)
Theorem mirror_resolves_layer (root : node) (top bottom : string) :
  (forall n c com,
     read_element root top bottom n c = Ok (inl com) ->
     exists l eangle mirrored,
       first_pad_layer root c = Some l /\
       element_rot c = Ok (eangle, mirrored) /\
       (mirrored = true -> l = top -> comp_layer com = Some bottom) /\
       (mirrored = true -> l = bottom -> comp_layer com = Some top) /\
       (mirrored = true -> l <> top -> l <> bottom -> comp_layer com = Some l) /\
       (mirrored = false -> comp_layer com = Some l)) /\
  (forall n c1 c2 r eangle com1,
     (forall name, name <> "rot" -> get c2 name = get c1 name) ->
     get c1 "rot" = Some r -> get c2 "rot" = Some (String "M" r) ->
     element_rot c1 = Ok (eangle, false) ->
     read_element root top bottom n c1 = Ok (inl com1) ->
     exists com2,
       read_element root top bottom n c2 = Ok (inl com2) /\
       element_rot c2 = Ok (eangle, true) /\
       comp_pads com2 = comp_pads com1 /\
       comp_x com2 = comp_x com1 /\ comp_y com2 = comp_y com1 /\
       comp_angle com2 = comp_angle com1 /\
       comp_name com2 = comp_name com1 /\
       comp_prefix com2 = comp_prefix com1 /\
       comp_value com2 = comp_value com1).
Proof.
  split.
  - intros n c com H.
    apply read_element_inv in H
      as (compname & compvalue & package_name & package0 & prest
          & Hn & Hne & Hv & Hp & Hx & [[_ H]|H]); [discriminate|].
    destruct H as (p0 & ps & compx & compy & eangle & mirrored & ourpads
                   & complayer & Hs & _ & _ & Hr & Hf & H).
    injection H as ->. cbn [comp_layer].
    apply pads_first_layer in Hf as (l & Hl & ->).
    exists l, eangle, mirrored. unfold first_pad_layer.
    rewrite Hp, Hx, Hs. repeat split; try assumption; unfold resolve_layer.
    + intros -> ->. now rewrite String.eqb_refl.
    + intros -> ->. destruct (String.eqb bottom top) eqn:E.
      * apply String.eqb_eq in E. now rewrite E.
      * now rewrite String.eqb_refl.
    + intros -> Ht Hb. apply String.eqb_neq in Ht, Hb. now rewrite Ht, Hb.
    + now intros ->.
  - intros n c1 c2 r eangle com1 Hsame Hr1 Hr2 Hrot H.
    apply read_element_inv in H
      as (compname & compvalue & package_name & package0 & prest
          & Hn & Hne & Hv & Hp & Hx & [[_ H]|H]); [discriminate|].
    destruct H as (p0 & ps & compx & compy & eangle' & mirrored & ourpads
                   & complayer & Hs & Hcx & Hcy & Hr & Hf & H).
    injection H as ->. rewrite Hrot in Hr. injection Hr as <- <-.
    pose proof (element_rot_add_marker _ _ Hr1 Hr2 Hrot) as Hrot2.
    pose proof (pads_ignore_mirror top bottom true false (p0 :: ps) [] None None)
      as Hpads.
    rewrite Hf in Hpads. cbn [result_map fst] in Hpads.
    destruct (foldM (pad_step true top bottom) (p0 :: ps) ([], None))
      as [[ourpads2 complayer2]|] eqn:Hf2; [|discriminate].
    cbn [result_map fst] in Hpads. injection Hpads as ->.
    eexists. split; [|split; [exact Hrot2 | ]].
    + unfold read_element.
      rewrite !Hsame by discriminate. rewrite Hn.
      apply String.eqb_neq in Hne. rewrite Hne, Hv, Hp, Hx. cbn [bind].
      rewrite Hs. rewrite !(getfloat_same c1 c2) by (apply Hsame; discriminate).
      rewrite Hcx, Hcy, Hrot2. cbn [bind]. rewrite Hf2. cbn [bind]. reflexivity.
    + cbn. repeat split; reflexivity.
Qed.

(** *** The loop over the elements *)

Lemma element_step_inv root top bottom b c b' :
  element_step root top bottom b c = Ok b' ->
  (exists line,
     read_element root top bottom (List.length (ourcomps b)) c = Ok (inr line) /\
     b' = print_line b line) \/
  (exists com,
     read_element root top bottom (List.length (ourcomps b)) c = Ok (inl com) /\
     b' = add_component b com).
Proof.
  unfold element_step. intros H. apply bind_ok in H as ([com|line] & Hr & H);
    injection H as <-; [right; now exists com | left; now exists line].
Qed.

Lemma empty_building_ok root top bottom :
  building_ok root top bottom (empty_building F).
Proof.
  constructor; cbn; try (intros; reflexivity);
    try (now intros ? ? []); try (now intros ? []); apply grouped_nil.
Qed.

Lemma add_component_ok root top bottom b c com :
  In c (xpath_tag root "element") ->
  read_element root top bottom (List.length (ourcomps b)) c = Ok (inl com) ->
  building_ok root top bottom b ->
  building_ok root top bottom (add_component b com).
Proof.
  intros Hc Hread [Ho Hv Hl Hlv Hn Hni Hvi Hli Hlvi Hr].
  assert (Hoid : oid com = List.length (ourcomps b)).
  { apply read_element_inv in Hread
      as (? & ? & ? & ? & ? & _ & _ & _ & _ & _ & [[_ H]|H]); [discriminate|].
    destruct H as (? & ? & ? & ? & ? & ? & ? & ? & _ & _ & _ & _ & _ & H).
    now injection H as ->. }
  constructor; cbn [add_component ourcomps b_value b_name b_layer b_layer_value].
  - rewrite map_app, length_app, Ho. cbn [map List.length].
    rewrite Nat.add_1_r, seq_S, Hoid. reflexivity.
  - apply grouped_append; [apply string_eqb_eq | assumption].
  - apply grouped_append; [apply layer_eqb_eq | assumption].
  - change (comp_layer com, comp_value com) with (layer_value_key com).
    apply grouped_append; [apply layer_value_eqb_eq | assumption].
  - intros nm. rewrite (dict_get_set _ string_eqb_eq), rev_app_distr.
    cbn [rev app find]. now rewrite Hn.
  - intros k com' H. apply dict_set_entry in H as [H| ->].
    + apply in_or_app. left. now apply (Hni k).
    + apply in_or_app. right. now left.
  - now apply dict_append_incl.
  - now apply dict_append_incl.
  - now apply dict_append_incl.
  - intros com' H. apply in_app_or in H as [H|[<-|[]]].
    + now apply Hr.
    + now exists c, (List.length (ourcomps b)).
Qed.

Lemma print_line_ok root top bottom b line :
  building_ok root top bottom b -> building_ok root top bottom (print_line b line).
Proof. intros []. now constructor. Qed.

Lemma elements_loop_ok root top bottom b :
  foldM (element_step root top bottom) (xpath_tag root "element")
    (empty_building F) = Ok b ->
  building_ok root top bottom b.
Proof.
  apply (foldM_invariant (element_step root top bottom)
           (building_ok root top bottom)).
  - intros st c st' Hin Hok H.
    apply element_step_inv in H as [(line & _ & ->)|(com & Hr & ->)].
    + now apply print_line_ok.
    + now apply (add_component_ok _ Hin Hr).
  - apply empty_building_ok.
Qed.

(** *** The whole extraction *)

Lemma get_board_info_inv root bi :
  get_board_info root = Ok bi ->
  exists b,
    foldM (element_step root (top_layer bi) (bottom_layer bi))
      (xpath_tag root "element") (empty_building F) = Ok b /\
    value_to_components bi = b_value b /\
    name_to_component bi = b_name b /\
    layer_to_components bi = b_layer b /\
    layer_value_to_components bi = b_layer_value b /\
    components bi = ourcomps b.
Proof.
  unfold get_board_info, get_board_info_out. intros H.
  apply bind_ok in H as ([bi' out] & H & Hbi). injection Hbi as <-.
  destruct (xpath_tag_attr root "layer" "name" "Dimension"); [discriminate|].
  destruct (xpath_tag_attr root "layer" "name" "Top"); [discriminate|].
  destruct (xpath_tag_attr root "layer" "name" "Bottom"); [discriminate|].
  destruct (Nat.ltb _ 2); [discriminate|].
  apply bind_ok in H as (xmin0 & _ & H). apply bind_ok in H as (ymin0 & _ & H).
  apply bind_ok in H as (xmax0 & _ & H). apply bind_ok in H as (ymax0 & _ & H).
  apply bind_ok in H as ([[[x0 y0] x1] y1] & _ & H).
  apply bind_ok in H as (b & Hb & H). injection H as <- _.
  exists b. cbn. repeat split. exact Hb.
Qed.

Lemma extraction_ok root bi :
  get_board_info root = Ok bi ->
  exists b,
    building_ok root (top_layer bi) (bottom_layer bi) b /\
    value_to_components bi = b_value b /\
    name_to_component bi = b_name b /\
    layer_to_components bi = b_layer b /\
    layer_value_to_components bi = b_layer_value b /\
    components bi = ourcomps b.
Proof.
  intros H. apply get_board_info_inv in H as (b & Hb & H).
  exists b. split; [now apply elements_loop_ok | exact H].
Qed.

Lemma indexed_in_components root bi com :
  get_board_info root = Ok bi -> indexed bi com -> In com (components bi).
Proof.
  intros H. apply extraction_ok in H as (b & Hok & Hv & Hn & Hl & Hlv & Hc).
  unfold indexed. rewrite Hv, Hn, Hl, Hlv, Hc. destruct Hok.
  intros [(k & H)|[(k & l & H & Hin)|[(k & l & H & Hin)|(k & l & H & Hin)]]].
  - now apply (ok_name_in0 k).
  - now apply (ok_value_in0 k l).
  - now apply (ok_layer_in0 k l).
  - now apply (ok_layer_value_in0 k l).
Qed.

(** A component that was built has pads, as many as its package. *)
Lemma read_element_pads root top bottom n c com :
  read_element root top bottom n c = Ok (inl com) ->
  comp_pads com <> [] /\
  exists p0 ps, package_pads root c = Some (p0 :: ps).
Proof.
  intros H. apply read_element_inv in H
    as (compname & compvalue & package_name & package0 & prest
        & Hn & Hne & Hv & Hp & Hx & [[_ H]|H]); [discriminate|].
  destruct H as (p0 & ps & compx & compy & eangle & mirrored & ourpads
                 & complayer & Hs & _ & _ & _ & Hf & H).
  injection H as ->. cbn [comp_pads]. split.
  - apply pads_count in Hf. destruct ourpads; [discriminate Hf | discriminate].
  - exists p0, ps. unfold package_pads. now rewrite Hp, Hx, Hs.
Qed.


(** C10: after an extraction the components are distinct objects; each is
    once in the bucket of its value, once in the bucket of its layer and
    once in the bucket of its layer and value; the indices hold components
    of the list only; and the name index gives, for each name, the last
    component of the list with that name. *)
Theorem indices_consistent (root : node) (bi : BoardInfo F) :
  get_board_info root = Ok bi ->
  NoDup (map (@oid F) (components bi)) /\
  (forall com, In com (components bi) ->
     (exists l, dict_get String.eqb (comp_value com) (value_to_components bi)
                = Some l /\ count_oid (oid com) l = 1) /\
     (exists l, dict_get layer_eqb (comp_layer com) (layer_to_components bi)
                = Some l /\ count_oid (oid com) l = 1) /\
     (exists l, dict_get layer_value_eqb (comp_layer com, comp_value com)
                  (layer_value_to_components bi)
                = Some l /\ count_oid (oid com) l = 1)) /\
  (forall com, indexed bi com -> In com (components bi)) /\
  (forall nm, dict_get String.eqb nm (name_to_component bi)
              = find (fun c => String.eqb (comp_name c) nm)
                  (rev (components bi))).
Proof.
  intros H. pose proof (extraction_ok _ H) as (b & Hok & Hv & Hn & Hl & Hlv & Hc).
  assert (Hnd : NoDup (map (@oid F) (ourcomps b)))
    by (apply seq_oids_nodup, (ok_oids Hok)).
  rewrite Hv, Hn, Hl, Hlv, Hc. repeat split.
  - exact Hnd.
  - eexists. split.
    + apply grouped_member;
        [apply string_eqb_eq | apply (ok_value Hok) | assumption].
    + apply count_oid_filter_one; [assumption | assumption | apply String.eqb_refl].
  - eexists. split.
    + apply grouped_member;
        [apply layer_eqb_eq | apply (ok_layer Hok) | assumption].
    + apply count_oid_filter_one; [assumption | assumption | now apply layer_eqb_eq].
  - eexists. split.
    + change (comp_layer com, comp_value com) with (layer_value_key com).
      apply grouped_member;
        [apply layer_value_eqb_eq | apply (ok_layer_value Hok) | assumption].
    + apply count_oid_filter_one;
        [assumption | assumption | now apply layer_value_eqb_eq].
  - intros com Hix. rewrite <- Hc. now apply (indexed_in_components root).
  - apply (ok_name Hok).
Qed.

(** *** The bounding box *)

Lemma wire_step_inv xmin ymin xmax ymax w box :
  wire_step float_of_str flt (xmin, ymin, xmax, ymax) w = Ok box ->
  exists x1 x2 y1 y2,
    getfloat w "x1" = Ok x1 /\ getfloat w "x2" = Ok x2 /\
    getfloat w "y1" = Ok y1 /\ getfloat w "y2" = Ok y2 /\
    box = (min3 flt xmin x1 x2, min3 flt ymin y1 y2,
           max3 flt xmax x1 x2, max3 flt ymax y1 y2).
Proof.
  unfold wire_step. intros H.
  apply bind_ok in H as (x1 & Hx1 & H). apply bind_ok in H as (x2 & Hx2 & H).
  apply bind_ok in H as (y1 & Hy1 & H). apply bind_ok in H as (y2 & Hy2 & H).
  rewrite Hx1, Hx2, Hy1, Hy2 in H. cbn [bind] in H. injection H as <-.
  now exists x1, x2, y1, y2.
Qed.

Section BoxBounds.
(** The numbers that compare as numbers do (a NaN does not), and what is
    asked of [<] on them: [a <= b] is "not [b < a]". *)
Variable ordinary : F -> Prop.
Hypothesis lt_asym : forall a b, flt a b = true -> flt b a = false.
Hypothesis le_trans :
  forall a b c, ordinary a -> ordinary b -> ordinary c ->
  flt b a = false -> flt c b = false -> flt c a = false.

Lemma le_refl a : flt a a = false.
Proof.
  destruct (flt a a) eqn:E; [|reflexivity].
  pose proof (lt_asym E). congruence.
Qed.

Lemma min3_bound a b c :
  ordinary a -> ordinary b -> ordinary c ->
  let m := min3 flt a b c in
  ordinary m /\ (m = a \/ m = b \/ m = c) /\
  flt a m = false /\ flt b m = false /\ flt c m = false.
Proof.
  intros Ha Hb Hc. unfold min3.
  destruct (flt b a) eqn:E1.
  - destruct (flt c b) eqn:E2; cbv zeta.
    + repeat split; auto using le_refl, lt_asym.
      apply (le_trans Hc Hb Ha); auto using lt_asym.
    + repeat split; auto using le_refl, lt_asym.
  - destruct (flt c a) eqn:E2; cbv zeta.
    + repeat split; auto using le_refl, lt_asym.
      apply (le_trans Hc Ha Hb); auto using lt_asym.
    + repeat split; auto using le_refl, lt_asym.
Qed.

Lemma max3_bound a b c :
  ordinary a -> ordinary b -> ordinary c ->
  let m := max3 flt a b c in
  ordinary m /\ (m = a \/ m = b \/ m = c) /\
  flt m a = false /\ flt m b = false /\ flt m c = false.
Proof.
  intros Ha Hb Hc. unfold max3.
  destruct (flt a b) eqn:E1.
  - destruct (flt b c) eqn:E2; cbv zeta.
    + repeat split; auto using le_refl, lt_asym.
      apply (le_trans Ha Hb Hc); auto using lt_asym.
    + repeat split; auto using le_refl, lt_asym.
  - destruct (flt a c) eqn:E2; cbv zeta.
    + repeat split; auto using le_refl, lt_asym.
      apply (le_trans Hb Ha Hc); auto using lt_asym.
    + repeat split; auto using le_refl, lt_asym.
Qed.

(** The box bounds the end points of the wires it was folded over, and
    each side is the coordinate of an end point or the side it started
    from. *)
Lemma box_bounds ws x0 y0 x0' y0' xmin ymin xmax ymax :
  ordinary x0 -> ordinary y0 -> ordinary x0' -> ordinary y0' ->
  (forall w name v, In w ws -> getfloat w name = Ok v -> ordinary v) ->
  foldM (wire_step float_of_str flt) ws (x0, y0, x0', y0')
    = Ok (xmin, ymin, xmax, ymax) ->
  (ordinary xmin /\ ordinary ymin /\ ordinary xmax /\ ordinary ymax) /\
  (flt x0 xmin = false /\ flt y0 ymin = false /\
   flt xmax x0' = false /\ flt ymax y0' = false) /\
  (forall w, In w ws ->
     exists x1 x2 y1 y2,
       getfloat w "x1" = Ok x1 /\ getfloat w "x2" = Ok x2 /\
       getfloat w "y1" = Ok y1 /\ getfloat w "y2" = Ok y2 /\
       flt x1 xmin = false /\ flt x2 xmin = false /\
       flt y1 ymin = false /\ flt y2 ymin = false /\
       flt xmax x1 = false /\ flt xmax x2 = false /\
       flt ymax y1 = false /\ flt ymax y2 = false) /\
  (xmin = x0 \/ exists w, In w ws /\
     (getfloat w "x1" = Ok xmin \/ getfloat w "x2" = Ok xmin)) /\
  (ymin = y0 \/ exists w, In w ws /\
     (getfloat w "y1" = Ok ymin \/ getfloat w "y2" = Ok ymin)) /\
  (xmax = x0' \/ exists w, In w ws /\
     (getfloat w "x1" = Ok xmax \/ getfloat w "x2" = Ok xmax)) /\
  (ymax = y0' \/ exists w, In w ws /\
     (getfloat w "y1" = Ok ymax \/ getfloat w "y2" = Ok ymax)).
Proof.
  revert x0 y0 x0' y0'.
  induction ws as [|w ws IH]; intros x0 y0 x0' y0' Hx0 Hy0 Hx0' Hy0' Hws H.
  - cbn [foldM] in H. injection H as <- <- <- <-.
    repeat split; auto using le_refl; try (intros ? []).
  - cbn [foldM] in H. apply bind_ok in H as (box & Hstep & H).
    apply wire_step_inv in Hstep
      as (x1 & x2 & y1 & y2 & Hx1 & Hx2 & Hy1 & Hy2 & ->).
    assert (Ox1 : ordinary x1) by (apply (Hws w "x1"); [now left | assumption]).
    assert (Ox2 : ordinary x2) by (apply (Hws w "x2"); [now left | assumption]).
    assert (Oy1 : ordinary y1) by (apply (Hws w "y1"); [now left | assumption]).
    assert (Oy2 : ordinary y2) by (apply (Hws w "y2"); [now left | assumption]).
    destruct (min3_bound Hx0 Ox1 Ox2) as (Oa & Ea & La0 & La1 & La2).
    destruct (min3_bound Hy0 Oy1 Oy2) as (Ob & Eb & Lb0 & Lb1 & Lb2).
    destruct (max3_bound Hx0' Ox1 Ox2) as (Oc & Ec & Lc0 & Lc1 & Lc2).
    destruct (max3_bound Hy0' Oy1 Oy2) as (Od & Ed & Ld0 & Ld1 & Ld2).
    cbv zeta in *.
    destruct (IH _ _ _ _ Oa Ob Oc Od
                (fun w' name v Hin => Hws w' name v (or_intror Hin)) H)
      as ((Oxmin & Oymin & Oxmax & Oymax) & (Lx & Ly & Lx' & Ly') & Hall
          & Hxmin & Hymin & Hxmax & Hymax).
    split; [auto|]. split; [|split].
    + repeat split.
      * apply (le_trans Oxmin Oa Hx0); assumption.
      * apply (le_trans Oymin Ob Hy0); assumption.
      * apply (le_trans Hx0' Oc Oxmax); assumption.
      * apply (le_trans Hy0' Od Oymax); assumption.
    + intros w' [<-|Hin]; [|now apply Hall].
      exists x1, x2, y1, y2. repeat split; try assumption.
      * apply (le_trans Oxmin Oa Ox1); assumption.
      * apply (le_trans Oxmin Oa Ox2); assumption.
      * apply (le_trans Oymin Ob Oy1); assumption.
      * apply (le_trans Oymin Ob Oy2); assumption.
      * apply (le_trans Ox1 Oc Oxmax); assumption.
      * apply (le_trans Ox2 Oc Oxmax); assumption.
      * apply (le_trans Oy1 Od Oymax); assumption.
      * apply (le_trans Oy2 Od Oymax); assumption.
    + repeat split.
      * destruct Hxmin as [->|(w' & Hin & Hw')];
          [|right; exists w'; split; [now right | assumption]].
        destruct Ea as [->|[-> | ->]]; [now left | |];
          right; exists w; split; auto; now left.
      * destruct Hymin as [->|(w' & Hin & Hw')];
          [|right; exists w'; split; [now right | assumption]].
        destruct Eb as [->|[-> | ->]]; [now left | |];
          right; exists w; split; auto; now left.
      * destruct Hxmax as [->|(w' & Hin & Hw')];
          [|right; exists w'; split; [now right | assumption]].
        destruct Ec as [->|[-> | ->]]; [now left | |];
          right; exists w; split; auto; now left.
      * destruct Hymax as [->|(w' & Hin & Hw')];
          [|right; exists w'; split; [now right | assumption]].
        destruct Ed as [->|[-> | ->]]; [now left | |];
          right; exists w; split; auto; now left.
Qed.
End BoxBounds.

(** The box of an extraction is folded over the wires tagged with the layer
    ["20"], at least two of them, from the two infinities. *)
Lemma bounding_box_layer_20 root bi :
  get_board_info root = Ok bi ->
  let ws := xpath_tag_attr root "wire" "layer" "20" in
  2 <= List.length ws /\
  exists pinf ninf,
    float_of_str "+inf" = Some pinf /\ float_of_str "-inf" = Some ninf /\
    foldM (wire_step float_of_str flt) ws (pinf, pinf, ninf, ninf)
      = Ok (xmin bi, ymin bi, xmax bi, ymax bi).
Proof.
  unfold get_board_info, get_board_info_out. intros H.
  apply bind_ok in H as ([bi' out] & H & Hbi). injection Hbi as <-.
  destruct (xpath_tag_attr root "layer" "name" "Dimension"); [discriminate|].
  destruct (xpath_tag_attr root "layer" "name" "Top"); [discriminate|].
  destruct (xpath_tag_attr root "layer" "name" "Bottom"); [discriminate|].
  destruct (Nat.ltb _ 2) eqn:Elen; [discriminate|].
  apply Nat.ltb_ge in Elen. unfold pyfloat in H.
  destruct (float_of_str "+inf") as [pinf|]; [|discriminate].
  destruct (float_of_str "-inf") as [ninf|]; [|discriminate].
  cbn [bind] in H.
  apply bind_ok in H as ([[[x0 y0] x1] y1] & Hbox & H).
  apply bind_ok in H as (b & Hb & H). injection H as <- _.
  cbn. split; [assumption|]. now exists pinf, ninf.
Qed.
End ExtractorProperties.

(** ** The extractor on the sample boards *)

Lemma same_but_rot :
  forall name, name <> "rot" -> get element_R2_mirrored name = get element_R2 name.
Proof.
  intros name Hne. unfold get, element_R2_mirrored, element_R2, element.
  cbn [attrs_of app assoc].
  repeat match goal with
         | |- context [String.eqb ?a name] =>
             destruct (String.eqb a name) eqn:?; [reflexivity|]
         end.
  destruct (String.eqb "rot" name) eqn:E; [|reflexivity].
  apply String.eqb_eq in E. congruence.
Qed.

Lemma mirror_resolves_layer_witness :
  exists com1 com2,
    read_element dfloat_of_str board20 "1" "16" 2 element_R2 = Ok (inl com1) /\
    read_element dfloat_of_str board20 "1" "16" 2 element_R2_mirrored = Ok (inl com2) /\
    comp_layer com1 = Some "1" /\ comp_layer com2 = Some "16" /\
    comp_pads com2 = comp_pads com1.
Proof.
  pose proof (proj2 (mirror_resolves_layer dfloat_of_str board20 "1" "16")
                2 element_R2 element_R2_mirrored) as H.
  destruct (read_element dfloat_of_str board20 "1" "16" 2 element_R2)
    as [[com1|]|] eqn:E1; try discriminate E1.
  destruct (H "R180" (Some (DFin 180 0)) com1 same_but_rot eq_refl eq_refl
              eq_refl eq_refl) as (com2 & E2 & _ & Hpads & _).
  exists com1, com2. vm_compute in E1. injection E1 as <-.
  vm_compute in E2. injection E2 as <-.
  repeat split; reflexivity.
Defined.


Lemma indices_consistent_witness :
  exists bi,
    extract board20 = Ok bi /\
    List.length (components bi) = 3 /\
    NoDup (map (@oid dfloat) (components bi)) /\
    (forall com, indexed bi com -> In com (components bi)).
Proof.
  destruct (extract board20) as [bi|] eqn:E; [|discriminate E].
  exists bi. split; [reflexivity|]. split.
  - vm_compute in E. injection E as <-. reflexivity.
  - pose proof (indices_consistent dfloat_of_str dflt dfsub board20 E) as H.
    split; [apply H | apply H].
Defined.

(** C1 on boards whose dimension layer is numbered 21: the outline is read
    from the layer 20 all the same.  With nothing on the layer 20 the
    extraction fails, although the dimension layer holds four segments; with
    two other wires there, the box is theirs, 10 by 10, and not the 100 by 50
    of the outline. *)
Theorem dimension_layer_not_used :
  option_map (fun l => get l "number")
    (hd_error (xpath_tag_attr board21 "layer" "name" "Dimension"))
    = Some (Some "21") /\
  List.length (xpath_tag_attr board21 "wire" "layer" "21") = 4 /\
  extract board21 = Raise "Error processing dimension layer wires" /\
  result_map (fun bi => (dimension_layer_number bi, xmin bi, xmax bi, ymin bi, ymax bi))
    (extract board21_with_20)
    = Ok (PyStr "21", DFin 0 0, DFin 10 0, DFin 0 0, DFin 10 0) /\
  result_map (fun bi => (dimension_layer_number bi, xmin bi, xmax bi, ymin bi, ymax bi))
    (extract board20)
    = Ok (PyStr "20", DFin 0 0, DFin 100 0, DFin 0 0, DFin 50 0).
Proof. repeat split; vm_compute; reflexivity. Qed.

(** ** The pad renderer and the layout driver *)

Lemma fold_left_emit {A B : Type} (f : A -> list B) (xs : list A) (acc : list B) :
  fold_left (fun acc x => (acc ++ f x)%list) xs acc = (acc ++ flat_map f xs)%list.
Proof.
  revert acc. induction xs as [|x xs IH]; intros acc; simpl.
  - now rewrite app_nil_r.
  - now rewrite IH, app_assoc.
Qed.

Lemma fold_left_ext {A B : Type} (f g : B -> A -> B) (xs : list A) (acc : B) :
  (forall acc x, f acc x = g acc x) -> fold_left f xs acc = fold_left g xs acc.
Proof.
  intros H. revert acc. induction xs as [|x xs IH]; intros acc; simpl;
    [reflexivity | now rewrite H, IH].
Qed.

Section RendererProperties.
Variable F : Type.
Variable of_Z : Z -> F.
Variables fadd fsub fmul fdiv : F -> F -> F.
Variable fneg : F -> F.
Variables fcos fsin : F -> F.
Variable fpi : F.

Local Abbreviation rotate_coords := (rotate_coords of_Z fadd fsub fmul fdiv fcos fsin fpi).
Local Abbreviation pad_corners := (pad_corners of_Z fadd fsub fmul fdiv fneg fcos fsin fpi).
Local Abbreviation render_component_pad :=
  (render_component_pad of_Z fadd fsub fmul fdiv fneg fcos fsin fpi).
Local Abbreviation render_pads :=
  (render_pads of_Z fadd fsub fmul fdiv fneg fcos fsin fpi).
Local Abbreviation render_components :=
  (render_components of_Z fadd fsub fmul fdiv fneg fcos fsin fpi).
Local Abbreviation page := (page of_Z fadd fsub fmul fdiv fneg fcos fsin fpi).
Local Abbreviation value_pages :=
  (value_pages of_Z fadd fsub fmul fdiv fneg fcos fsin fpi).
Local Abbreviation layout_by_same_value :=
  (layout_by_same_value of_Z fadd fsub fmul fdiv fneg fcos fsin fpi).
Local Abbreviation rotate_ccw := (rotate_ccw of_Z fadd fsub fmul fdiv fcos fsin fpi).
Local Abbreviation local_corners := (local_corners of_Z fdiv fneg).
Local Abbreviation page_point :=
  (page_point of_Z fadd fsub fmul fdiv fneg fcos fsin fpi).
Local Abbreviation draw_pad := (draw_pad of_Z fadd fsub fmul fdiv fneg fcos fsin fpi).
Local Abbreviation draw_component :=
  (draw_component of_Z fadd fsub fmul fdiv fneg fcos fsin fpi).
Local Abbreviation sheet_ops :=
  (sheet_ops of_Z fadd fsub fmul fdiv fneg fcos fsin fpi).

Lemma rotate_coords_ccw pt angle : rotate_coords pt angle = rotate_ccw angle pt.
Proof. destruct angle, pt; reflexivity. Qed.

Lemma render_pads_draw bi highlight cv c :
  render_pads bi highlight cv c = (cv ++ draw_component bi highlight c)%list.
Proof.
  unfold render_pads, draw_component.
  rewrite <- fold_left_emit. apply fold_left_ext. intros; reflexivity.
Qed.

(** What [render_components] draws: the components of [all_cs] that are
    not in [val_cs] in the muted tone, then those of [val_cs] in the
    highlight tone. *)
Lemma render_components_draw cv bi all_cs val_cs :
  render_components cv bi all_cs val_cs
  = (cv ++ flat_map (draw_component bi false)
             (filter (fun c => negb (comp_in c val_cs)) all_cs)
        ++ flat_map (draw_component bi true) val_cs)%list.
Proof.
  unfold render_components.
  rewrite (fold_left_ext _ (fun cv c => (cv ++ draw_component bi true c)%list))
    by (intros; apply render_pads_draw).
  rewrite fold_left_emit, app_assoc. f_equal.
  revert cv. induction all_cs as [|c cs IH]; intros cv; cbn [fold_left filter].
  - now rewrite app_nil_r.
  - destruct (comp_in c val_cs); cbn [negb]; [apply IH|].
    rewrite IH, render_pads_draw. cbn [flat_map]. now rewrite app_assoc.
Qed.

Lemma page_draw bi headingspace cwidth cheight val all_cs val_cs cv prefix_cs :
  page bi headingspace cwidth cheight val all_cs val_cs cv prefix_cs
  = (cv ++ sheet_ops bi headingspace cwidth cheight
             {| sheet_heading := heading val prefix_cs;
                sheet_muted := filter (fun c => negb (comp_in c val_cs)) all_cs;
                sheet_highlighted := val_cs |})%list.
Proof.
  unfold page, sheet_ops. rewrite render_components_draw.
  cbn [sheet_heading sheet_muted sheet_highlighted].
  rewrite <- !app_assoc. reflexivity.
Qed.

Lemma value_pages_draw bi layer headingspace cwidth cheight cv val :
  value_pages bi layer headingspace cwidth cheight cv val
  = (cv ++ flat_map (sheet_ops bi headingspace cwidth cheight)
             (value_sheets bi layer val))%list.
Proof.
  unfold value_pages, value_sheets.
  destruct (dict_get layer_value_eqb (Some layer, val)
              (layer_value_to_components bi)) as [val_cs|];
    [|now rewrite app_nil_r].
  rewrite (fold_left_ext _ _ _ _ (page_draw bi headingspace cwidth cheight val _ val_cs)).
  rewrite (fold_left_emit
             (fun prefix_cs =>
                sheet_ops bi headingspace cwidth cheight
                  {| sheet_heading := heading val prefix_cs;
                     sheet_muted := filter (fun c => negb (comp_in c val_cs)) _;
                     sheet_highlighted := val_cs |})).
  f_equal. now rewrite !flat_map_concat_map, map_map.
Qed.

Lemma values_draw bi layer headingspace cwidth cheight vals cv :
  fold_left (value_pages bi layer headingspace cwidth cheight) vals cv
  = (cv ++ flat_map (sheet_ops bi headingspace cwidth cheight)
             (flat_map (value_sheets bi layer) vals))%list.
Proof.
  revert cv. induction vals as [|val vals IH]; intros cv; cbn [fold_left flat_map].
  - now rewrite app_nil_r.
  - now rewrite IH, value_pages_draw, flat_map_app, app_assoc.
Qed.

(** The calls of the layout driver: the page size, then page after page
    the heading, the muted components, the highlighted ones and the end of
    the page. *)
Lemma layout_draw cv bi layer :
  layout_by_same_value cv bi layer
  = let headingspace := fdiv (height bi) (of_Z 10) in
    let cwidth := width bi in
    let cheight := fadd (height bi) headingspace in
    (cv ++ SetPageSize cwidth cheight
        :: flat_map (sheet_ops bi headingspace cwidth cheight)
             (layout_sheets bi layer))%list.
Proof.
  unfold layout_by_same_value, layout_sheets. cbv zeta.
  rewrite values_draw, <- app_assoc. reflexivity.
Qed.

Hypothesis fsub_neg : forall a b, fsub a b = fadd a (fneg b).

End RendererProperties.

(** ** The renderer on real numbers *)


(** On real numbers the rotation is the counter-clockwise one: a quarter
    turn takes [(1, 0)] to [(0, 1)]. *)
Lemma rotate_coords_ideal_quarter :
  rotate_coords_ideal (1, 0)%R (Some 90%R) = (0, 1)%R.
Proof.
  unfold rotate_coords_ideal, rotate_coords.
  replace (90 / IZR 180 * PI)%R with (PI / 2)%R by (simpl; field).
  rewrite cos_PI2, sin_PI2. f_equal; ring.
Qed.

(** On real numbers a full turn more changes nothing.  This is a fact of
    the real cosine and sine; the binary64 ones of the code round
    [(a + 360) / 180 * pi] and [a / 180 * pi] apart. *)
Lemma rotate_coords_ideal_period (pt : R * R) (a : R) :
  rotate_coords_ideal pt (Some (a + 360)%R) = rotate_coords_ideal pt (Some a).
Proof.
  unfold rotate_coords_ideal, rotate_coords. destruct pt as [x y].
  replace ((a + 360) / IZR 180 * PI)%R with (a / IZR 180 * PI + 2 * INR 1 * PI)%R
    by (simpl; field).
  now rewrite cos_period, sin_period.
Qed.

(** ** The layout driver on the sample board *)

(** C2 on a board with a resistor and a capacitor of the same value on the
    top side: one page for each, and both pages draw both parts in the
    highlight tone. *)
Theorem same_value_highlighted_on_each_page :
  exists bi,
    extract board20 = Ok bi /\
    map (fun sh => (sheet_heading sh, map (@oid dfloat) (sheet_muted sh),
                    map (@oid dfloat) (sheet_highlighted sh)))
      (layout_sheets bi "1")
    = [ ("V = 100, N = R1", [], [0; 1]); ("V = 100, N = C1", [], [0; 1]) ] /\
    forall (of_Z : Z -> dfloat) fadd fsub fmul fdiv fneg fcos fsin fpi,
      layout_by_same_value of_Z fadd fsub fmul fdiv fneg fcos fsin fpi [] bi "1"
      = SetPageSize (width bi) (fadd (height bi) (fdiv (height bi) (of_Z 10%Z)))
        :: flat_map
             (sheet_ops of_Z fadd fsub fmul fdiv fneg fcos fsin fpi bi
                (fdiv (height bi) (of_Z 10%Z)) (width bi)
                (fadd (height bi) (fdiv (height bi) (of_Z 10%Z))))
             (layout_sheets bi "1").
Proof.
  destruct (extract board20) as [bi|] eqn:E; [|discriminate E].
  exists bi. split; [reflexivity|]. split.
  - vm_compute in E. injection E as <-. vm_compute. reflexivity.
  - intros. apply layout_draw.
Qed.

(** * Further properties *)

(** ** An index is its components grouped by key *)

Section IndexFacts.
Variables K A : Type.
Variable eqb : K -> K -> bool.
Hypothesis eqb_eq : forall a b, eqb a b = true <-> a = b.
Variable key : A -> K.

Lemma existsb_eqb_in k (l : list K) : existsb (eqb k) l = true <-> In k l.
Proof.
  rewrite existsb_exists. split.
  - intros (x & Hin & Hx). apply eqb_eq in Hx. now subst.
  - intros Hin. exists k. split; [assumption | now apply eqb_eq].
Qed.

Lemma first_occurrences_snoc l k :
  first_occurrences eqb (l ++ [k])
  = if existsb (eqb k) (first_occurrences eqb l)
    then first_occurrences eqb l
    else (first_occurrences eqb l ++ [k])%list.
Proof. unfold first_occurrences. now rewrite fold_left_app. Qed.

Lemma first_occurrences_in l k : In k (first_occurrences eqb l) <-> In k l.
Proof.
  induction l as [|a l IH] using rev_ind; [reflexivity|].
  rewrite first_occurrences_snoc, in_app_iff.
  destruct (existsb (eqb a) (first_occurrences eqb l)) eqn:E.
  - apply existsb_eqb_in in E. rewrite IH. split; [tauto|].
    intros [H|[<-|[]]]; [assumption | now apply IH].
  - rewrite in_app_iff, IH. reflexivity.
Qed.

Lemma first_occurrences_nodup l : NoDup (first_occurrences eqb l).
Proof.
  induction l as [|a l IH] using rev_ind; [constructor|].
  rewrite first_occurrences_snoc.
  destruct (existsb (eqb a) (first_occurrences eqb l)) eqn:E; [assumption|].
  apply NoDup_app; [assumption | repeat constructor; intros [] |].
  intros x Hx [<-|[]].
  apply existsb_eqb_in in Hx. congruence.
Qed.

Lemma dict_get_map (f : K -> list A) ks k :
  dict_get eqb k (map (fun k' => (k', f k')) ks)
  = if existsb (eqb k) ks then Some (f k) else None.
Proof.
  induction ks as [|k0 ks IH]; cbn [map dict_get existsb]; [reflexivity|].
  destruct (eqb k0 k) eqn:E.
  - apply eqb_eq in E. subst k0.
    now rewrite (proj2 (eqb_eq k k) eq_refl).
  - rewrite IH. destruct (eqb k k0) eqn:E'; [|reflexivity].
    apply eqb_eq in E'. subst k0.
    now rewrite (proj2 (eqb_eq k k) eq_refl) in E.
Qed.

Lemma dict_set_map_new (f : K -> list A) ks k v :
  ~ In k ks ->
  dict_set eqb k v (map (fun k' => (k', f k')) ks)
  = (map (fun k' => (k', f k')) ks ++ [(k, v)])%list.
Proof.
  induction ks as [|k0 ks IH]; cbn [map dict_set app]; intros Hn; [reflexivity|].
  destruct (eqb k0 k) eqn:E.
  - apply eqb_eq in E. subst k0. exfalso. apply Hn. now left.
  - rewrite IH; [reflexivity|]. intros H. apply Hn. now right.
Qed.

Lemma dict_set_map_old (f g : K -> list A) ks k :
  NoDup ks -> In k ks ->
  (forall k', k' <> k -> g k' = f k') ->
  dict_set eqb k (g k) (map (fun k' => (k', f k')) ks)
  = map (fun k' => (k', g k')) ks.
Proof.
  intros Hnd Hin Hfg. induction ks as [|k0 ks IH]; [destruct Hin|].
  cbn [map dict_set]. apply NoDup_cons_iff in Hnd as [Hk0 Hnd].
  destruct (eqb k0 k) eqn:E.
  - apply eqb_eq in E. subst k0. f_equal.
    apply map_ext_in. intros k' Hk'. rewrite Hfg; [reflexivity|].
    intros ->. contradiction.
  - destruct Hin as [->|Hin];
      [now rewrite (proj2 (eqb_eq k k) eq_refl) in E|].
    rewrite IH by assumption. rewrite Hfg; [reflexivity|].
    intros ->. now rewrite (proj2 (eqb_eq k k) eq_refl) in E.
Qed.

Lemma filed_other k cs c :
  key c <> k -> filed eqb key k (cs ++ [c]) = filed eqb key k cs.
Proof.
  intros Hne. rewrite filed_snoc.
  destruct (eqb (key c) k) eqn:E; [apply eqb_eq in E; contradiction|].
  apply app_nil_r.
Qed.

Lemma filed_none k cs : ~ In k (map key cs) -> filed eqb key k cs = [].
Proof.
  intros Hn. apply filter_none. intros x Hx.
  destruct (eqb (key x) k) eqn:E; [|reflexivity].
  apply eqb_eq in E. exfalso. apply Hn. rewrite <- E. now apply in_map.
Qed.

(** Filing one more component in the index of [cs] gives the index of
    [cs] and the component. *)
Lemma index_of_snoc cs c :
  dict_append eqb (key c) c (index_of eqb key cs) = index_of eqb key (cs ++ [c]).
Proof.
  unfold dict_append, index_of.
  rewrite dict_get_map, map_app. cbn [map].
  rewrite first_occurrences_snoc.
  destruct (existsb (eqb (key c)) (first_occurrences eqb (map key cs))) eqn:E.
  - apply existsb_eqb_in in E.
    rewrite <- (dict_set_map_old (fun k => filed eqb key k cs)
                  (fun k => filed eqb key k (cs ++ [c])) (k := key c));
      [| apply first_occurrences_nodup | assumption
       | intros k' Hk'; apply filed_other; congruence].
    f_equal. rewrite filed_snoc. now rewrite (proj2 (eqb_eq _ _) eq_refl).
  - assert (Hn : ~ In (key c) (first_occurrences eqb (map key cs))).
    { intros H. apply existsb_eqb_in in H. congruence. }
    rewrite dict_set_map_new by assumption.
    rewrite map_app. cbn [map]. f_equal.
    + apply map_ext_in. intros k Hk. f_equal. symmetry. apply filed_other.
      intros E'. apply Hn. now rewrite E'.
    + rewrite filed_snoc, (proj2 (eqb_eq _ _) eq_refl).
      rewrite filed_none; [reflexivity|].
      intros H. apply Hn. now apply first_occurrences_in.
Qed.

Lemma index_of_fold cs0 cs :
  fold_left (fun d c => dict_append eqb (key c) c d) cs (index_of eqb key cs0)
  = index_of eqb key (cs0 ++ cs).
Proof.
  revert cs0. induction cs as [|c cs IH]; intros cs0; cbn [fold_left].
  - now rewrite app_nil_r.
  - rewrite index_of_snoc, IH, <- app_assoc. reflexivity.
Qed.
End IndexFacts.

(** ** The order of the exact decimals *)

Lemma scaled_ltb m1 e1 m2 e2 E :
  (E <= e1)%Z -> (E <= e2)%Z ->
  (m1 * 10 ^ (e1 - Z.min e1 e2) <? m2 * 10 ^ (e2 - Z.min e1 e2))%Z
  = (m1 * 10 ^ (e1 - E) <? m2 * 10 ^ (e2 - E))%Z.
Proof.
  intros H1 H2. set (e := Z.min e1 e2).
  assert (He : (E <= e /\ e <= e1 /\ e <= e2)%Z) by (unfold e; lia).
  replace (e1 - E)%Z with ((e1 - e) + (e - E))%Z by lia.
  replace (e2 - E)%Z with ((e2 - e) + (e - E))%Z by lia.
  rewrite !Z.pow_add_r by lia.
  assert (Hc : (0 < 10 ^ (e - E))%Z) by (apply Z.pow_pos_nonneg; lia).
  set (A := (m1 * 10 ^ (e1 - e))%Z). set (B := (m2 * 10 ^ (e2 - e))%Z).
  set (C := (10 ^ (e - E))%Z) in *.
  replace (m1 * (10 ^ (e1 - e) * C))%Z with (A * C)%Z by (unfold A; ring).
  replace (m2 * (10 ^ (e2 - e) * C))%Z with (B * C)%Z by (unfold B; ring).
  destruct (Z.ltb_spec A B), (Z.ltb_spec (A * C) (B * C)); try reflexivity; nia.
Qed.

Lemma dflt_asym a b : dflt a b = true -> dflt b a = false.
Proof.
  destruct a as [m1 e1|[]|], b as [m2 e2|[]|]; cbn; try congruence.
  rewrite (Z.min_comm e2 e1). intros H.
  apply Z.ltb_lt in H. apply Z.ltb_ge. lia.
Qed.

Lemma dflt_le_trans a b c :
  a <> DNan -> b <> DNan -> c <> DNan ->
  dflt b a = false -> dflt c b = false -> dflt c a = false.
Proof.
  destruct a as [m1 e1|[]|], b as [m2 e2|[]|], c as [m3 e3|[]|];
    cbn [dflt]; try congruence.
  intros _ _ _.
  set (E := Z.min e1 (Z.min e2 e3)).
  rewrite (@scaled_ltb m2 e2 m1 e1 E), (@scaled_ltb m3 e3 m2 e2 E),
    (@scaled_ltb m3 e3 m1 e1 E) by (unfold E; lia).
  rewrite !Z.ltb_ge. lia.
Qed.

(** ** More on the extractor *)

Lemma foldM_each_ok {A S : Type} (step : S -> A -> result S) xs st st' :
  foldM step xs st = Ok st' ->
  forall x, In x xs -> exists s1 s2, step s1 x = Ok s2.
Proof.
  revert st. induction xs as [|a xs IH]; intros st H x Hin; [destruct Hin|].
  cbn [foldM] in H. apply bind_ok in H as (st1 & H1 & H2).
  destruct Hin as [<-|Hin]; [now exists st, st1 | now apply (IH st1)].
Qed.

Section ExtractorMore.
Variable F : Type.
Variable float_of_str : string -> option F.
Variable flt : F -> F -> bool.
Variable fsub : F -> F -> F.

Local Abbreviation getfloat := (getfloat float_of_str).
Local Abbreviation element_rot := (element_rot float_of_str).
Local Abbreviation pad_rot := (pad_rot float_of_str).
Local Abbreviation pad_step := (pad_step float_of_str).
Local Abbreviation read_element := (read_element float_of_str).
Local Abbreviation element_step := (element_step float_of_str).
Local Abbreviation get_board_info_out := (get_board_info_out float_of_str flt fsub).
Local Abbreviation get_board_info := (get_board_info float_of_str flt fsub).

(** *** What a successful extraction went through *)

Lemma get_board_info_out_inv root bi out :
  get_board_info_out root = Ok (bi, out) ->
  exists b,
    foldM (element_step root (top_layer bi) (bottom_layer bi))
      (xpath_tag root "element") (empty_building F) = Ok b /\
    value_to_components bi = b_value b /\
    name_to_component bi = b_name b /\
    layer_to_components bi = b_layer b /\
    layer_value_to_components bi = b_layer_value b /\
    components bi = ourcomps b /\
    out = printed b.
Proof.
  unfold get_board_info_out. intros H.
  destruct (xpath_tag_attr root "layer" "name" "Dimension"); [discriminate|].
  destruct (xpath_tag_attr root "layer" "name" "Top"); [discriminate|].
  destruct (xpath_tag_attr root "layer" "name" "Bottom"); [discriminate|].
  destruct (Nat.ltb _ 2); [discriminate|].
  apply bind_ok in H as (xmin0 & _ & H). apply bind_ok in H as (ymin0 & _ & H).
  apply bind_ok in H as (xmax0 & _ & H). apply bind_ok in H as (ymax0 & _ & H).
  apply bind_ok in H as ([[[x0 y0] x1] y1] & _ & H).
  apply bind_ok in H as (b & Hb & H). injection H as <- <-.
  exists b. cbn. repeat split. exact Hb.
Qed.

Lemma get_board_info_out_of root bi :
  get_board_info root = Ok bi -> exists out, get_board_info_out root = Ok (bi, out).
Proof.
  unfold get_board_info. intros H.
  apply bind_ok in H as ([bi' out] & H & Hbi). injection Hbi as <-.
  now exists out.
Qed.

Lemma read_element_built root top bottom n c com :
  read_element root top bottom n c = Ok (inl com) ->
  has_pads root c = true /\ oid com = n.
Proof.
  intros H. split.
  - apply read_element_pads in H as (_ & p0 & ps & Hp).
    unfold has_pads. now rewrite Hp.
  - apply read_element_inv in H
      as (? & ? & ? & ? & ? & _ & _ & _ & _ & _ & [[_ H]|H]); [discriminate|].
    destruct H as (? & ? & ? & ? & ? & ? & ? & ? & _ & _ & _ & _ & _ & H).
    now injection H as ->.
Qed.

Lemma read_element_skipped root top bottom n c line :
  read_element root top bottom n c = Ok (inr line) ->
  has_pads root c = false /\ line = skip_line c.
Proof.
  intros H. apply read_element_inv in H
    as (compname & compvalue & package_name & package0 & prest
        & Hn & _ & _ & Hp & Hx & [[Hs H]|H]).
  - injection H as ->. unfold has_pads, package_pads, skip_line.
    now rewrite Hp, Hx, Hs, Hn.
  - destruct H as (? & ? & ? & ? & ? & ? & ? & ? & _ & _ & _ & _ & _ & H).
    discriminate.
Qed.

(** The loop over the elements: the components it adds are those of the
    elements with pads, in their order; the lines it prints are those of
    the elements without, in theirs. *)
Lemma elements_loop_order root top bottom es b b' :
  foldM (element_step root top bottom) es b = Ok b' ->
  exists new,
    ourcomps b' = (ourcomps b ++ new)%list /\
    Forall2 (fun c com => read_element root top bottom (oid com) c = Ok (inl com))
      (filter (has_pads root) es) new /\
    printed b'
    = (printed b ++ map skip_line (filter (fun c => negb (has_pads root c)) es))%list.
Proof.
  revert b. induction es as [|c es IH]; intros b H; cbn [foldM] in H.
  - injection H as <-. exists []. cbn. now rewrite !app_nil_r.
  - apply bind_ok in H as (b1 & Hstep & H).
    destruct (IH _ H) as (new & Hc & Hall & Hp).
    apply element_step_inv in Hstep as [(line & Hr & ->)|(com & Hr & ->)].
    + apply read_element_skipped in Hr as (Hk & ->).
      exists new. cbn [filter]. rewrite Hk. cbn [negb map].
      repeat split; [assumption | assumption|].
      rewrite Hp. cbn [print_line printed]. now rewrite <- app_assoc.
    + pose proof (read_element_built _ _ _ _ _ Hr) as (Hk & Hoid).
      exists (com :: new). cbn [filter]. rewrite Hk. cbn [negb].
      repeat split.
      * rewrite Hc. cbn [add_component ourcomps]. now rewrite <- app_assoc.
      * constructor; [now rewrite Hoid | assumption].
      * rewrite Hp. reflexivity.
Qed.

(** X1: the components of an extraction are, in document order, those
    built from the elements whose package has surface-mount pads, numbered
    from 0 in that order; and the lines printed are those of the other
    elements, in document order. *)
Theorem components_in_document_order (root : node) (bi : BoardInfo F)
    (out : list string) :
  get_board_info_out root = Ok (bi, out) ->
  Forall2
    (fun c com =>
       read_element root (top_layer bi) (bottom_layer bi) (oid com) c
       = Ok (inl com))
    (filter (has_pads root) (xpath_tag root "element")) (components bi) /\
  map (@oid F) (components bi) = seq 0 (List.length (components bi)) /\
  out = map skip_line
          (filter (fun c => negb (has_pads root c)) (xpath_tag root "element")).
Proof.
  intros H. apply get_board_info_out_inv in H
    as (b & Hb & _ & _ & _ & _ & Hc & ->).
  pose proof (elements_loop_ok _ _ _ _ Hb) as Hok.
  apply elements_loop_order in Hb as (new & Hnew & Hall & Hp).
  cbn in Hnew, Hp. rewrite Hc, Hnew, Hp. repeat split.
  - assumption.
  - rewrite <- Hnew. apply (ok_oids Hok).
Qed.

(** *** The indices in closed form *)

Lemma elements_loop_indices root top bottom b :
  foldM (element_step root top bottom) (xpath_tag root "element")
    (empty_building F) = Ok b ->
  b_value b = index_of String.eqb (@comp_value F) (ourcomps b) /\
  b_layer b = index_of layer_eqb (@comp_layer F) (ourcomps b) /\
  b_layer_value b = index_of layer_value_eqb (@layer_value_key F) (ourcomps b).
Proof.
  apply (foldM_invariant (element_step root top bottom)
           (fun b =>
              b_value b = index_of String.eqb (@comp_value F) (ourcomps b) /\
              b_layer b = index_of layer_eqb (@comp_layer F) (ourcomps b) /\
              b_layer_value b
              = index_of layer_value_eqb (@layer_value_key F) (ourcomps b))).
  - intros st c st' _ (Hv & Hl & Hlv) H.
    apply element_step_inv in H as [(line & _ & ->)|(com & _ & ->)];
      [now repeat split|].
    cbn [add_component b_value b_layer b_layer_value ourcomps].
    rewrite Hv, Hl, Hlv. repeat split.
    + apply index_of_snoc, string_eqb_eq.
    + apply index_of_snoc, layer_eqb_eq.
    + change (comp_layer com, comp_value com) with (layer_value_key com).
      apply index_of_snoc, layer_value_eqb_eq.
  - now repeat split.
Qed.

Lemma extraction_indices root bi :
  get_board_info root = Ok bi ->
  value_to_components bi
  = index_of String.eqb (@comp_value F) (components bi) /\
  layer_to_components bi
  = index_of layer_eqb (@comp_layer F) (components bi) /\
  layer_value_to_components bi
  = index_of layer_value_eqb (@layer_value_key F) (components bi).
Proof.
  intros H. apply get_board_info_inv in H as (b & Hb & Hv & _ & Hl & Hlv & Hc).
  rewrite Hv, Hl, Hlv, Hc. exact (elements_loop_indices _ _ _ Hb).
Qed.

(** X2: after an extraction each of the three list-valued indices has one
    entry for each key that occurs among the components, in the order the
    keys first occur, and the entry of a key holds all the components with
    that key, in the order of the list. *)
Theorem indices_group_components (root : node) (bi : BoardInfo F) :
  get_board_info root = Ok bi ->
  value_to_components bi
  = index_of String.eqb (@comp_value F) (components bi) /\
  layer_to_components bi
  = index_of layer_eqb (@comp_layer F) (components bi) /\
  layer_value_to_components bi
  = index_of layer_value_eqb (@layer_value_key F) (components bi).
Proof. apply extraction_indices. Qed.

Lemma find_unique_name (cs : list (Component F)) com :
  NoDup (map (@comp_name F) cs) -> In com cs ->
  find (fun c => String.eqb (comp_name c) (comp_name com)) cs = Some com.
Proof.
  induction cs as [|a cs IH]; intros Hnd Hin; [destruct Hin|].
  cbn [map] in Hnd. apply NoDup_cons_iff in Hnd as [Ha Hnd]. cbn [find].
  destruct Hin as [->|Hin]; [now rewrite String.eqb_refl|].
  destruct (String.eqb (comp_name a) (comp_name com)) eqn:E.
  - apply String.eqb_eq in E. exfalso. apply Ha. rewrite E. now apply in_map.
  - now apply IH.
Qed.

(** X3: when the components of an extraction have pairwise different
    names, looking a component's name up in the name index gives that
    component. *)
Theorem name_lookup (root : node) (bi : BoardInfo F) (com : Component F) :
  get_board_info root = Ok bi ->
  NoDup (map (@comp_name F) (components bi)) ->
  In com (components bi) ->
  dict_get String.eqb (comp_name com) (name_to_component bi) = Some com.
Proof.
  intros H Hnd Hin.
  apply extraction_ok in H as (b & Hok & _ & Hn & _ & _ & Hc).
  rewrite Hn, (ok_name Hok), <- Hc.
  apply find_unique_name.
  - rewrite map_rev. apply NoDup_rev. assumption.
  - now apply in_rev in Hin.
Qed.


(** *** The pads and the fields of a component *)

Lemma pad_step_read mirrored top bottom ourpads complayer p st' :
  pad_step mirrored top bottom (ourpads, complayer) p = Ok st' ->
  exists op, pad_read float_of_str p op /\ fst st' = (ourpads ++ [op])%list.
Proof.
  unfold pad_step. cbn beta iota.
  destruct (get p "layer") as [l|]; [|discriminate]. intros H.
  apply bind_ok in H as (x & Hx & H). apply bind_ok in H as (y & Hy & H).
  apply bind_ok in H as (a & Ha & H). apply bind_ok in H as (dx & Hdx & H).
  apply bind_ok in H as (dy & Hdy & H). injection H as <-.
  exists {| pad_x := x; pad_y := y; pad_width := dx; pad_height := dy;
            pad_angle := a |}.
  unfold pad_read. cbn. repeat split; assumption.
Qed.

Lemma pads_loop_read mirrored top bottom ps ourpads complayer ourpads' complayer' :
  foldM (pad_step mirrored top bottom) ps (ourpads, complayer)
    = Ok (ourpads', complayer') ->
  exists new, ourpads' = (ourpads ++ new)%list /\
              Forall2 (pad_read float_of_str) ps new.
Proof.
  revert ourpads complayer. induction ps as [|p ps IH];
    intros ourpads complayer H; cbn [foldM] in H.
  - injection H as <- _. exists []. now rewrite app_nil_r.
  - apply bind_ok in H as ([pads1 layer1] & H1 & H2).
    apply pad_step_read in H1 as (op & Hop & Hp). cbn [fst] in Hp. subst pads1.
    apply IH in H2 as (new & -> & Hall).
    exists (op :: new). rewrite <- app_assoc. split; [reflexivity|].
    now constructor.
Qed.

(** X5: every component of an extraction was built from an element of the
    document: name, value, position and angle are the element's, the prefix
    is that of the name, and the pads are those of the element's package,
    one for each surface-mount pad definition and in the same order, each
    with the position, size and angle its definition gives. *)
Theorem component_mirrors_element (root : node) (bi : BoardInfo F)
    (com : Component F) :
  get_board_info root = Ok bi ->
  In com (components bi) ->
  exists c ppads mirrored,
    In c (xpath_tag root "element") /\
    get c "name" = Some (comp_name com) /\
    get c "value" = Some (comp_value com) /\
    comp_prefix com = name_prefix (comp_name com) /\
    getfloat c "x" = Ok (comp_x com) /\
    getfloat c "y" = Ok (comp_y com) /\
    element_rot c = Ok (comp_angle com, mirrored) /\
    package_pads root c = Some ppads /\
    Forall2 (pad_read float_of_str) ppads (comp_pads com).
Proof.
  intros H Hin. apply extraction_ok in H as (b & Hok & _ & _ & _ & _ & Hc).
  rewrite Hc in Hin. destruct (ok_read Hok com Hin) as (c & n & Hcin & Hr).
  apply read_element_inv in Hr
    as (compname & compvalue & package_name & package0 & prest
        & Hn & Hne & Hv & Hp & Hx & [[_ H]|H]); [discriminate|].
  destruct H as (p0 & ps & compx & compy & eangle & mirrored & ourpads
                 & complayer & Hs & Hcx & Hcy & Hrot & Hf & H).
  injection H as ->. cbn.
  apply pads_loop_read in Hf as (new & -> & Hall).
  exists c, (p0 :: ps), mirrored. unfold package_pads.
  rewrite Hp, Hx, Hs. repeat split; assumption.
Qed.

(** X6: a pad's [rot] attribute is read by the pattern of the elements:
    it is accepted exactly when it would be on an element, with the same
    angle; a mirror marker in it is accepted and changes nothing. *)
Theorem pad_rot_as_element_rot :
  (forall p a,
     pad_rot p = Ok a <-> exists mirrored, element_rot p = Ok (a, mirrored)) /\
  (forall p1 p2 r a,
     get p1 "rot" = Some r -> get p2 "rot" = Some (String "M" r) ->
     element_rot p1 = Ok (a, false) ->
     pad_rot p2 = pad_rot p1 /\ pad_rot p2 = Ok a).
Proof.
  assert (Hiff : forall p a,
    pad_rot p = Ok a <-> exists mirrored, element_rot p = Ok (a, mirrored)).
  { intros p a. unfold pad_rot, element_rot.
    destruct (get p "rot") as [rot|].
    - destruct (re_match angle_re rot) as [m|].
      + destruct (float_group float_of_str m 2) as [v|]; cbn [bind].
        * split; [intros [= <-]; eexists; reflexivity | intros (? & [= <- _]); reflexivity].
        * split; [discriminate | intros (? & ?); discriminate].
      + split; [discriminate | intros (? & ?); discriminate].
    - split; [intros [= <-]; eexists; reflexivity | intros (? & [= <- _]); reflexivity]. }
  split; [exact Hiff|].
  intros p1 p2 r a H1 H2 Hrot.
  assert (Hp2 : pad_rot p2 = Ok a).
  { apply Hiff. exists true. now apply (element_rot_add_marker _ p1 p2 H1 H2). }
  split; [|assumption]. rewrite Hp2. symmetry. apply Hiff. now exists false.
Qed.

(** X7: exchanging top and bottom twice gives the layer back, whatever
    the two layer numbers are; and without mirroring the layer is kept. *)
Theorem resolve_layer_involutive (mirrored : bool) (top bottom l : string) :
  resolve_layer mirrored top bottom (resolve_layer mirrored top bottom l) = l /\
  resolve_layer false top bottom l = l.
Proof.
  split; [|reflexivity]. unfold resolve_layer. destruct mirrored; [|reflexivity].
  destruct (String.eqb l top) eqn:E1.
  - apply String.eqb_eq in E1. subst l.
    destruct (String.eqb bottom top) eqn:E2.
    + now apply String.eqb_eq in E2.
    + now rewrite String.eqb_refl.
  - destruct (String.eqb l bottom) eqn:E2.
    + apply String.eqb_eq in E2. subst l. now rewrite String.eqb_refl.
    + now rewrite E1, E2.
Qed.

(** *** The bounding box *)

(** X8: let [<] be asymmetric, and "not greater" transitive, on the
    numbers that are not NaN, the two infinities and the coordinates of the
    wires of layer 20 among them.  Then after an extraction there are at
    least two such wires, the box bounds both end points of each of them,
    and each side of the box is a coordinate of one of their end points (or
    the infinity the search starts from, when no coordinate is beyond
    it). *)
Theorem bounding_box_min_max (ordinary : F -> Prop) (root : node)
    (bi : BoardInfo F) :
  (forall a b, flt a b = true -> flt b a = false) ->
  (forall a b c, ordinary a -> ordinary b -> ordinary c ->
                 flt b a = false -> flt c b = false -> flt c a = false) ->
  (forall v, float_of_str "+inf" = Some v \/ float_of_str "-inf" = Some v ->
             ordinary v) ->
  (forall w name v, In w (xpath_tag_attr root "wire" "layer" "20") ->
                    getfloat w name = Ok v -> ordinary v) ->
  get_board_info root = Ok bi ->
  let ws := xpath_tag_attr root "wire" "layer" "20" in
  2 <= List.length ws /\
  (forall w, In w ws ->
     exists x1 x2 y1 y2,
       getfloat w "x1" = Ok x1 /\ getfloat w "x2" = Ok x2 /\
       getfloat w "y1" = Ok y1 /\ getfloat w "y2" = Ok y2 /\
       flt x1 (xmin bi) = false /\ flt x2 (xmin bi) = false /\
       flt y1 (ymin bi) = false /\ flt y2 (ymin bi) = false /\
       flt (xmax bi) x1 = false /\ flt (xmax bi) x2 = false /\
       flt (ymax bi) y1 = false /\ flt (ymax bi) y2 = false) /\
  (float_of_str "+inf" = Some (xmin bi) \/
   exists w, In w ws /\
     (getfloat w "x1" = Ok (xmin bi) \/ getfloat w "x2" = Ok (xmin bi))) /\
  (float_of_str "+inf" = Some (ymin bi) \/
   exists w, In w ws /\
     (getfloat w "y1" = Ok (ymin bi) \/ getfloat w "y2" = Ok (ymin bi))) /\
  (float_of_str "-inf" = Some (xmax bi) \/
   exists w, In w ws /\
     (getfloat w "x1" = Ok (xmax bi) \/ getfloat w "x2" = Ok (xmax bi))) /\
  (float_of_str "-inf" = Some (ymax bi) \/
   exists w, In w ws /\
     (getfloat w "y1" = Ok (ymax bi) \/ getfloat w "y2" = Ok (ymax bi))).
Proof.
  intros Hasym Htrans Hinf Hws H ws.
  apply bounding_box_layer_20 in H as (Hlen & pinf & ninf & Hp & Hn & Hbox).
  fold ws in Hlen, Hbox.
  assert (Op : ordinary pinf) by (apply Hinf; now left).
  assert (On : ordinary ninf) by (apply Hinf; now right).
  destruct (@box_bounds F float_of_str flt ordinary Hasym Htrans ws pinf pinf ninf ninf
              _ _ _ _ Op Op On On Hws Hbox)
    as (_ & _ & Hall & Hxmin & Hymin & Hxmax & Hymax).
  split; [assumption|]. split; [assumption|].
  repeat split.
  - destruct Hxmin as [->|Hw]; [now left | now right].
  - destruct Hymin as [->|Hw]; [now left | now right].
  - destruct Hxmax as [->|Hw]; [now left | now right].
  - destruct Hymax as [->|Hw]; [now left | now right].
Qed.

(** *** The pages of a layer, from the components *)

Lemma oid_injective (cs : list (Component F)) a b :
  NoDup (map (@oid F) cs) -> In a cs -> In b cs -> oid a = oid b -> a = b.
Proof.
  induction cs as [|c cs IH]; intros Hnd Ha Hb E; [destruct Ha|].
  cbn [map] in Hnd. apply NoDup_cons_iff in Hnd as [Hc Hnd].
  destruct Ha as [->|Ha], Hb as [->|Hb].
  - reflexivity.
  - exfalso. apply Hc. rewrite E. now apply in_map.
  - exfalso. apply Hc. rewrite <- E. now apply in_map.
  - now apply IH.
Qed.

Lemma filter_filter {A : Type} (f g : A -> bool) (l : list A) :
  filter f (filter g l) = filter (fun x => g x && f x) l.
Proof.
  induction l as [|a l IH]; cbn [filter]; [reflexivity|].
  destruct (g a); cbn [filter andb]; [destruct (f a)|]; now rewrite IH.
Qed.

Lemma filed_layer_value layer val (cs : list (Component F)) :
  filed layer_value_eqb (@layer_value_key F) (Some layer, val) cs
  = filter (on_layer_value layer val) cs.
Proof. reflexivity. Qed.

(** Among distinct objects, being one of those with the value is having
    the value. *)
Lemma comp_in_on_layer_value layer val (cs : list (Component F)) c :
  NoDup (map (@oid F) cs) -> In c cs -> on_layer layer c = true ->
  comp_in c (filter (on_layer_value layer val) cs) = String.eqb (comp_value c) val.
Proof.
  intros Hnd Hin Hl. unfold comp_in.
  destruct (String.eqb (comp_value c) val) eqn:E.
  - apply existsb_exists. exists c. split; [|apply Nat.eqb_refl].
    apply filter_In. split; [assumption|].
    unfold on_layer_value. now rewrite Hl, E.
  - destruct (existsb _ _) eqn:Ex; [|reflexivity].
    apply existsb_exists in Ex as (c' & Hc' & Hoid).
    apply filter_In in Hc' as [Hc' Hv]. apply Nat.eqb_eq in Hoid.
    rewrite (oid_injective cs c' c Hnd Hc' Hin Hoid) in Hv.
    unfold on_layer_value in Hv. rewrite Hl, E in Hv. discriminate.
Qed.

Lemma group_by_prefix_index (val_cs : list (Component F)) :
  group_by_prefix val_cs = index_of prefix_eqb (@comp_prefix F) val_cs.
Proof.
  unfold group_by_prefix.
  change (@nil (option string * list (Component F)))
    with (index_of prefix_eqb (@comp_prefix F) []).
  apply index_of_fold, layer_eqb_eq.
Qed.

Lemma index_of_keys {K A : Type} (eqb : K -> K -> bool) (key : A -> K) cs :
  dict_keys (index_of eqb key cs) = first_occurrences eqb (map key cs).
Proof.
  unfold dict_keys, index_of. rewrite map_map. cbn [fst]. apply map_id.
Qed.

Lemma index_of_get {K A : Type} (eqb : K -> K -> bool) (key : A -> K) cs k :
  (forall a b, eqb a b = true <-> a = b) ->
  dict_get eqb k (index_of eqb key cs)
  = match filed eqb key k cs with [] => None | l => Some l end.
Proof.
  intros Heq. unfold index_of. rewrite dict_get_map by exact Heq.
  destruct (existsb (eqb k) (first_occurrences eqb (map key cs))) eqn:E.
  - apply existsb_eqb_in in E; [|exact Heq].
    apply first_occurrences_in in E; [|exact Heq].
    apply in_map_iff in E as (c & Hk & Hc).
    assert (Hin : In c (filed eqb key k cs)).
    { apply filter_In. split; [assumption | now apply Heq]. }
    destruct (filed eqb key k cs); [destruct Hin | reflexivity].
  - rewrite filed_none; [reflexivity | exact Heq |].
    intros Hin. apply (first_occurrences_in _ Heq) in Hin.
    apply (existsb_eqb_in _ Heq) in Hin. congruence.
Qed.

Lemma layout_sheets_of_components (root : node) (bi : BoardInfo F) (layer : string) :
  get_board_info root = Ok bi ->
  layout_sheets bi layer
  = flat_map
      (fun val =>
         map (fun pre =>
                {| sheet_heading :=
                     heading val
                       (filter (fun c => on_layer_value layer val c
                                         && prefix_eqb (comp_prefix c) pre)
                          (components bi));
                   sheet_muted :=
                     filter (on_layer_other_value layer val) (components bi);
                   sheet_highlighted :=
                     filter (on_layer_value layer val) (components bi) |})
           (first_occurrences prefix_eqb
              (map (@comp_prefix F)
                 (filter (on_layer_value layer val) (components bi)))))
      (first_occurrences String.eqb (map (@comp_value F) (components bi))).
Proof.
  intros H.
  pose proof (extraction_indices _ H) as (Hv & Hl & Hlv).
  apply extraction_ok in H as (b & Hok & _ & _ & _ & _ & Hc).
  assert (Hnd : NoDup (map (@oid F) (components bi)))
    by (rewrite Hc; apply seq_oids_nodup, (ok_oids Hok)).
  unfold layout_sheets. rewrite Hv, index_of_keys.
  apply flat_map_ext. intros val. unfold value_sheets.
  rewrite Hlv, Hl, index_of_get, filed_layer_value by apply layer_value_eqb_eq.
  destruct (filter (on_layer_value layer val) (components bi)) as [|c0 cs0] eqn:Ef;
    [reflexivity|].
  rewrite <- Ef. rewrite group_by_prefix_index.
  rewrite index_of_get by apply layer_eqb_eq.
  unfold dict_values, index_of. rewrite !map_map. cbn [snd].
  apply map_ext. intros pre. f_equal.
  - f_equal. unfold filed. apply filter_filter.
  - assert (Hc0 : In c0 (filter (on_layer_value layer val) (components bi)))
      by (rewrite Ef; now left).
    apply filter_In in Hc0 as [Hc0 Hv0].
    unfold on_layer_value in Hv0. apply andb_prop in Hv0 as [Hl0 _].
    assert (Hin0 : In c0 (filed layer_eqb (@comp_layer F) (Some layer) (components bi)))
      by (apply filter_In; split; assumption).
    destruct (filed layer_eqb (@comp_layer F) (Some layer) (components bi))
      as [|c1 cs1] eqn:El; [destruct Hin0|].
    rewrite <- El. unfold filed. rewrite filter_filter.
    apply filter_ext_in. intros c Hcin. unfold on_layer_other_value.
    change (layer_eqb (comp_layer c) (Some layer)) with (on_layer layer c).
    destruct (on_layer layer c) eqn:Hlc; [|reflexivity]. cbn [andb].
    now rewrite comp_in_on_layer_value.
Qed.


Lemma filter_split {A : Type} (f g : A -> bool) (l : list A) :
  Permutation
    (filter (fun x => g x && negb (f x)) l ++ filter (fun x => g x && f x) l)
    (filter g l).
Proof.
  induction l as [|a l IH]; cbn [filter]; [constructor|].
  destruct (g a); cbn [andb]; [|assumption].
  destruct (f a); cbn [negb app].
  - apply Permutation_sym, Permutation_cons_app, Permutation_sym. assumption.
  - now constructor.
Qed.

End ExtractorMore.

(** ** The further properties of the extractor on the sample board *)

Lemma components_in_document_order_witness :
  exists bi out,
    get_board_info_out dfloat_of_str dflt dfsub board20 = Ok (bi, out) /\
    map (@oid dfloat) (components bi) = seq 0 (List.length (components bi)) /\
    out = map skip_line
            (filter (fun c => negb (has_pads board20 c)) (xpath_tag board20 "element")).
Proof.
  destruct (get_board_info_out dfloat_of_str dflt dfsub board20)
    as [[bi out]|] eqn:E; [|discriminate E].
  exists bi, out. split; [reflexivity|].
  exact (proj2 (components_in_document_order dfloat_of_str dflt dfsub board20 E)).
Defined.

Lemma indices_group_components_witness :
  exists bi,
    extract board20 = Ok bi /\
    value_to_components bi
    = index_of String.eqb (@comp_value dfloat) (components bi).
Proof.
  destruct (extract board20) as [bi|] eqn:E; [|discriminate E].
  exists bi. split; [reflexivity|].
  exact (proj1 (indices_group_components dfloat_of_str dflt dfsub board20 E)).
Defined.

Lemma name_lookup_witness :
  exists bi com,
    extract board20 = Ok bi /\ comp_name com = "C1" /\
    dict_get String.eqb "C1" (name_to_component bi) = Some com.
Proof.
  destruct (extract board20) as [bi|] eqn:E; [|discriminate E].
  pose proof E as E'. vm_compute in E'. injection E' as <-.
  eexists. eexists. split; [reflexivity|].
  match goal with
  | |- _ /\ dict_get _ _ (name_to_component ?b) = _ =>
      pose proof (fun com => @name_lookup dfloat dfloat_of_str dflt dfsub board20 b com E)
        as H
  end.
  cbn [components] in H.
  match type of H with
  | forall com, _ -> In com (_ :: ?c :: _) -> _ =>
      specialize (H c); split; [|apply H]
  end.
  - reflexivity.
  - cbn. repeat constructor; cbn; intuition discriminate.
  - right. now left.
Defined.


Lemma component_mirrors_element_witness :
  exists bi com c ppads mirrored,
    extract board20 = Ok bi /\ In com (components bi) /\
    In c (xpath_tag board20 "element") /\
    get c "name" = Some (comp_name com) /\
    package_pads board20 c = Some ppads /\
    element_rot dfloat_of_str c = Ok (comp_angle com, mirrored) /\
    Forall2 (pad_read dfloat_of_str) ppads (comp_pads com).
Proof.
  destruct (extract board20) as [bi|] eqn:E; [|discriminate E].
  assert (Hin : exists com, In com (components bi)).
  { pose proof E as E'. vm_compute in E'. injection E' as <-.
    eexists. left. reflexivity. }
  destruct Hin as (com & Hin).
  destruct (component_mirrors_element dfloat_of_str dflt dfsub board20 com E Hin)
    as (c & ppads & mirrored & Hc & Hn & _ & _ & _ & _ & Hr & Hp & Hall).
  now exists bi, com, c, ppads, mirrored.
Defined.

Lemma pad_rot_as_element_rot_witness :
  pad_rot dfloat_of_str smd_mr90 = pad_rot dfloat_of_str smd_r90 /\
  pad_rot dfloat_of_str smd_mr90 = Ok (Some (DFin 90 0)).
Proof.
  exact (proj2 (pad_rot_as_element_rot dfloat_of_str) smd_r90 smd_mr90 "R90"
           (Some (DFin 90 0)) eq_refl eq_refl eq_refl).
Defined.

Lemma board20_wires_not_nan w name v :
  In w (xpath_tag_attr board20 "wire" "layer" "20") ->
  getfloat dfloat_of_str w name = Ok v -> not_nan v.
Proof.
  intros Hin. vm_compute in Hin.
  unfold getfloat, get.
  repeat (destruct Hin as [<-|Hin]; [
    cbn [attrs_of assoc];
    repeat match goal with
           | |- context [String.eqb ?a name] => destruct (String.eqb a name)
           end;
    try discriminate;
    intros H; vm_compute in H; injection H as <-; discriminate |]).
  destruct Hin.
Qed.

Lemma inf_not_nan v :
  dfloat_of_str "+inf" = Some v \/ dfloat_of_str "-inf" = Some v -> not_nan v.
Proof. intros [H|H]; vm_compute in H; injection H as <-; discriminate. Qed.

Lemma bounding_box_min_max_witness :
  exists bi,
    extract board20 = Ok bi /\
    2 <= List.length (xpath_tag_attr board20 "wire" "layer" "20") /\
    forall w, In w (xpath_tag_attr board20 "wire" "layer" "20") ->
      exists x1 x2 y1 y2,
        getfloat dfloat_of_str w "x1" = Ok x1 /\ getfloat dfloat_of_str w "x2" = Ok x2 /\
        getfloat dfloat_of_str w "y1" = Ok y1 /\ getfloat dfloat_of_str w "y2" = Ok y2 /\
        dflt x1 (xmin bi) = false /\ dflt x2 (xmin bi) = false /\
        dflt y1 (ymin bi) = false /\ dflt y2 (ymin bi) = false /\
        dflt (xmax bi) x1 = false /\ dflt (xmax bi) x2 = false /\
        dflt (ymax bi) y1 = false /\ dflt (ymax bi) y2 = false.
Proof.
  destruct (extract board20) as [bi|] eqn:E; [|discriminate E].
  exists bi. split; [reflexivity|].
  destruct (bounding_box_min_max dfloat_of_str dflt dfsub not_nan board20
              dflt_asym dflt_le_trans inf_not_nan board20_wires_not_nan E)
    as (Hlen & Hall & _).
  split; assumption.
Defined.

(** ** More on the renderer and the layout driver *)

Lemma insert_sorted_perm s l : Permutation (insert_sorted s l) (s :: l).
Proof.
  induction l as [|t l IH]; cbn [insert_sorted]; [reflexivity|].
  destruct (String.leb s t); [reflexivity|].
  rewrite IH. apply perm_swap.
Qed.

Lemma insert_sorted_sorted s l :
  Sorted name_le l -> Sorted name_le (insert_sorted s l).
Proof.
  induction l as [|t l IH]; cbn [insert_sorted]; intros Hs.
  - repeat constructor.
  - destruct (String.leb s t) eqn:E.
    + constructor; [assumption | constructor; exact E].
    + apply Sorted_inv in Hs as [Hs Hhd]. constructor; [now apply IH|].
      assert (Hts : name_le t s).
      { destruct (String.leb_total s t) as [H|H]; [congruence | exact H]. }
      destruct l as [|u l]; cbn [insert_sorted]; [now constructor|].
      destruct (String.leb s u); constructor; [assumption|].
      now apply HdRel_inv in Hhd.
Qed.

Lemma sort_names_sorted l : Sorted name_le (sort_names l) /\ Permutation (sort_names l) l.
Proof.
  unfold sort_names. induction l as [|s l [IHs IHp]]; cbn [fold_right].
  - split; constructor.
  - split; [now apply insert_sorted_sorted|].
    rewrite insert_sorted_perm. now constructor.
Qed.

(** X11: the heading of a page gives the value, then the names of the
    components of the group, every one of them, in ascending order
    and separated by commas. *)
Theorem heading_names_sorted (F : Type) (val : string)
    (prefix_cs : list (Component F)) :
  exists names,
    heading val prefix_cs = "V = " ++ val ++ ", N = " ++ String.concat "," names /\
    Sorted name_le names /\
    Permutation names (map (@comp_name F) prefix_cs).
Proof.
  exists (sort_names (map (@comp_name F) prefix_cs)).
  split; [reflexivity | apply sort_names_sorted].
Qed.

Section RendererMore.
Variable F : Type.
Variable of_Z : Z -> F.
Variables fadd fsub fmul fdiv : F -> F -> F.
Variable fneg : F -> F.
Variables fcos fsin : F -> F.
Variable fpi : F.

Local Abbreviation render_components :=
  (render_components of_Z fadd fsub fmul fdiv fneg fcos fsin fpi).
Local Abbreviation layout_by_same_value :=
  (layout_by_same_value of_Z fadd fsub fmul fdiv fneg fcos fsin fpi).
Local Abbreviation draw_pad := (draw_pad of_Z fadd fsub fmul fdiv fneg fcos fsin fpi).
Local Abbreviation draw_component :=
  (draw_component of_Z fadd fsub fmul fdiv fneg fcos fsin fpi).
Local Abbreviation sheet_ops :=
  (sheet_ops of_Z fadd fsub fmul fdiv fneg fcos fsin fpi).

(** The number of pads of the components of a list. *)
Local Abbreviation pads_of cs := (list_sum (map (fun c => List.length (comp_pads c)) cs)).

Lemma filter_flat_map {A B : Type} (p : B -> bool) (f : A -> list B) (l : list A) :
  filter p (flat_map f l) = flat_map (fun x => filter p (f x)) l.
Proof.
  induction l as [|a l IH]; cbn [flat_map]; [reflexivity|].
  now rewrite filter_app, IH.
Qed.

Lemma flat_map_nil {A B : Type} (f : A -> list B) (l : list A) :
  (forall x, f x = []) -> flat_map f l = [].
Proof.
  intros H. induction l as [|a l IH]; cbn [flat_map]; [reflexivity|].
  now rewrite H, IH.
Qed.

Lemma length_flat_map {A B : Type} (f : A -> list B) (l : list A) :
  List.length (flat_map f l) = list_sum (map (fun x => List.length (f x)) l).
Proof.
  induction l as [|a l IH]; cbn [flat_map map list_sum]; [reflexivity|].
  now rewrite length_app, IH.
Qed.

Lemma list_sum_ones {A : Type} (g : A -> nat) (l : list A) :
  (forall x, g x = 1) -> list_sum (map g l) = List.length l.
Proof.
  intros H. induction l as [|a l IH]; [reflexivity|].
  change (list_sum (map g (a :: l))) with (g a + list_sum (map g l)).
  now rewrite H, IH.
Qed.

Lemma draw_component_paths bi highlight c :
  List.length (filter is_draw_path (draw_component bi highlight c))
  = List.length (comp_pads c).
Proof.
  unfold draw_component. rewrite filter_flat_map, length_flat_map.
  apply list_sum_ones. reflexivity.
Qed.

Lemma draw_component_no_page bi highlight c :
  filter is_show_page (draw_component bi highlight c) = [] /\
  filter is_set_page_size (draw_component bi highlight c) = [].
Proof.
  unfold draw_component. rewrite !filter_flat_map.
  split; apply flat_map_nil; reflexivity.
Qed.

Lemma draw_components_paths bi highlight cs :
  List.length (filter is_draw_path (flat_map (draw_component bi highlight) cs))
  = pads_of cs.
Proof.
  rewrite filter_flat_map, length_flat_map. f_equal.
  apply map_ext. intros c. apply draw_component_paths.
Qed.


Lemma sheet_ops_pages bi headingspace cwidth cheight sh :
  List.length (filter is_show_page (sheet_ops bi headingspace cwidth cheight sh)) = 1 /\
  filter is_set_page_size (sheet_ops bi headingspace cwidth cheight sh) = [].
Proof.
  unfold sheet_ops. cbn [app filter is_show_page is_set_page_size].
  rewrite !filter_app, !filter_flat_map.
  rewrite !(flat_map_nil _ _ (fun c => proj1 (draw_component_no_page bi _ c))).
  rewrite !(flat_map_nil _ _ (fun c => proj2 (draw_component_no_page bi _ c))).
  split; reflexivity.
Qed.

End RendererMore.

(** ** The rotation on real numbers *)


(** ** The pages of the sample board *)



(** ** When the extraction succeeds *)

Lemma is_ok_true {A : Type} (r : result A) :
  is_ok r = true <-> exists a, r = Ok a.
Proof.
  destruct r as [a|msg]; cbn; split.
  - intros _. now exists a.
  - reflexivity.
  - discriminate.
  - intros (a & H). discriminate H.
Qed.

Lemma is_ok_bind {A B : Type} (m : result A) (k : A -> result B) (v : bool) :
  (forall a, is_ok (k a) = v) ->
  is_ok (bind m k) = is_ok m && v.
Proof. intros H. destruct m as [a|msg]; cbn; [apply H | reflexivity]. Qed.

(** A loop whose rounds fail or not whatever the state is ends well exactly
    when every round does. *)
Lemma is_ok_foldM {A S : Type} (step : S -> A -> result S) (valid : A -> bool) xs :
  (forall st x, is_ok (step st x) = valid x) ->
  forall st, is_ok (foldM step xs st) = forallb valid xs.
Proof.
  intros H. induction xs as [|x xs IH]; intros st; [reflexivity|].
  cbn [foldM forallb]. rewrite <- (H st x).
  destruct (step st x) as [st'|msg]; cbn; [apply IH | reflexivity].
Qed.

Section ExtractorSucceeds.
Variable F : Type.
Variable float_of_str : string -> option F.
Variable flt : F -> F -> bool.
Variable fsub : F -> F -> F.

Local Abbreviation getfloat := (getfloat float_of_str).
Local Abbreviation element_rot := (element_rot float_of_str).
Local Abbreviation pad_rot := (pad_rot float_of_str).
Local Abbreviation pad_step := (pad_step float_of_str).
Local Abbreviation read_element := (read_element float_of_str).
Local Abbreviation element_step := (element_step float_of_str).
Local Abbreviation wire_step := (wire_step float_of_str flt).
Local Abbreviation get_board_info_out := (get_board_info_out float_of_str flt fsub).
Local Abbreviation get_board_info := (get_board_info float_of_str flt fsub).
Local Abbreviation wire_valid := (wire_valid float_of_str).
Local Abbreviation pad_valid := (pad_valid float_of_str).
Local Abbreviation element_valid := (element_valid float_of_str).

Lemma wire_step_valid box w : is_ok (wire_step box w) = wire_valid w.
Proof.
  destruct box as [[[x0 y0] x1] y1]. unfold wire_step, wire_valid.
  cbn [forallb].
  destruct (getfloat w "x1") as [a|]; [|reflexivity].
  destruct (getfloat w "x2") as [b|]; [|reflexivity].
  destruct (getfloat w "y1") as [c|]; [|reflexivity].
  destruct (getfloat w "y2") as [d|]; reflexivity.
Qed.

Lemma pad_step_valid mirrored top bottom st p :
  is_ok (pad_step mirrored top bottom st p) = pad_valid p.
Proof.
  destruct st as [ourpads complayer]. unfold pad_step, pad_valid.
  cbn [forallb].
  destruct (get p "layer") as [l|]; [|reflexivity].
  destruct (getfloat p "x") as [x|]; [|reflexivity].
  destruct (getfloat p "y") as [y|]; [|reflexivity].
  destruct (pad_rot p) as [a|]; cbn.
  - destruct (getfloat p "dx") as [dx|]; [|reflexivity].
    destruct (getfloat p "dy") as [dy|]; reflexivity.
  - destruct (getfloat p "dx") as [dx|]; [|reflexivity].
    destruct (getfloat p "dy") as [dy|]; reflexivity.
Qed.

Lemma read_element_valid root top bottom n c :
  is_ok (read_element root top bottom n c) = element_valid root c.
Proof.
  unfold read_element, element_valid.
  destruct (get c "name") as [compname|]; [|reflexivity].
  destruct (String.eqb compname "");
    [destruct (get c "value"); [destruct (get c "package")|]; reflexivity|].
  destruct (get c "value") as [compvalue|]; [|reflexivity].
  destruct (get c "package") as [package_name|]; [|reflexivity].
  cbn [negb andb].
  destruct (xpath_package root package_name) as [[|package0 prest]|];
    [reflexivity| |reflexivity].
  cbn [bind].
  destruct (xpath_child package0 "smd") as [|p0 ps]; [reflexivity|].
  destruct (getfloat c "x") as [x|]; [|reflexivity].
  destruct (getfloat c "y") as [y|]; [|reflexivity].
  destruct (element_rot c) as [[eangle mirrored]|]; [|reflexivity].
  cbn [bind is_ok andb].
  rewrite <- (is_ok_foldM (pad_step mirrored top bottom) pad_valid (p0 :: ps)
                (pad_step_valid mirrored top bottom) ([], None)).
  destruct (foldM (pad_step mirrored top bottom) (p0 :: ps) ([], None))
    as [[ourpads complayer]|]; reflexivity.
Qed.

Lemma element_step_valid root top bottom b c :
  is_ok (element_step root top bottom b c) = element_valid root c.
Proof.
  unfold element_step. rewrite <- (read_element_valid root top bottom
                                     (List.length (ourcomps b)) c).
  destruct (read_element root top bottom (List.length (ourcomps b)) c)
    as [[com|line]|]; reflexivity.
Qed.

End ExtractorSucceeds.

